(** * scripts/extract_keywords.py: keyword extraction from a BibTeX file

    A shallow embedding of the script and the properties of its pipeline:
    entry segmentation, title extraction, phrase and token keywords,
    frequency aggregation and the minimum-frequency filter.

    Python [str] values are modelled by [string] and read as ASCII text.
    On ASCII, NFKD normalisation is the identity and no character is a
    combining mark, [str.lower] only moves [A-Z], and the white space of
    [str.strip], [str.isspace] and the pattern class [\s] is the code points
    9-13, 28-31 and 32.  Python [int] is [Z]; a [dict] used as a map is a
    [gmap]; a [set] is a [gset]. *)

From Stdlib Require Import ZArith Ascii String.
From stdpp Require Import base list strings gmap sorting.

Local Open Scope Z_scope.

(** ** Python string methods used by the script *)

Module PyStr.

Definition code (c : ascii) : N := N_of_ascii c.

Definition isspace (c : ascii) : bool :=
  let n := code c in
  ((9 <=? n) && (n <=? 13) || (28 <=? n) && (n <=? 32))%N.

Definition isupper (c : ascii) : bool :=
  let n := code c in ((65 <=? n) && (n <=? 90))%N.

Definition islower (c : ascii) : bool :=
  let n := code c in ((97 <=? n) && (n <=? 122))%N.

Definition isalpha (c : ascii) : bool := isupper c || islower c.

Definition lower_char (c : ascii) : ascii :=
  if isupper c then ascii_of_N (code c + 32) else c.

Definition upper_char (c : ascii) : ascii :=
  if islower c then ascii_of_N (code c - 32) else c.

(** [s.lower()] *)
Fixpoint lower (s : string) : string :=
  match s with
  | EmptyString => EmptyString
  | String c s' => String (lower_char c) (lower s')
  end.

(** [s.capitalize()]: first character upper-cased, the rest lower-cased. *)
Definition capitalize (s : string) : string :=
  match s with
  | EmptyString => EmptyString
  | String c s' => String (upper_char c) (lower s')
  end.

(** [s.title()]: a letter that follows a non-letter is upper-cased, any
    other letter is lower-cased. *)
Fixpoint title_go (prev_cased : bool) (s : string) : string :=
  match s with
  | EmptyString => EmptyString
  | String c s' =>
      String (if prev_cased then lower_char c else upper_char c)
             (title_go (isalpha c) s')
  end.
Definition title : string → string := title_go false.

(** [s.startswith(p)] *)
Fixpoint startswith (p s : string) : bool :=
  match p, s with
  | EmptyString, _ => true
  | String a p', String b s' => bool_decide (a = b) && startswith p' s'
  | String _ _, EmptyString => false
  end.

(** [p in s] *)
Fixpoint contains (p s : string) : bool :=
  startswith p s ||
  match s with
  | EmptyString => false
  | String _ s' => contains p s'
  end.

(** [s.count(c)] for a one-character argument. *)
Fixpoint count (c : ascii) (s : string) : Z :=
  match s with
  | EmptyString => 0
  | String b s' => (if bool_decide (b = c) then 1 else 0) + count c s'
  end.

(** [s.replace(old, new)] for a non-empty [old]: the occurrences are
    replaced from left to right and do not overlap.  [skip] counts the
    characters of the occurrence being replaced that are still to drop. *)
Fixpoint replace_go (old new : string) (skip : nat) (s : string) : string :=
  match s with
  | EmptyString => EmptyString
  | String c s' =>
      match skip with
      | S n => replace_go old new n s'
      | O =>
          if startswith old s
          then new +:+ replace_go old new (Nat.pred (String.length old)) s'
          else String c (replace_go old new 0 s')
      end
  end.
Definition replace (old new s : string) : string := replace_go old new 0 s.

Fixpoint lstrip (s : string) : string :=
  match s with
  | EmptyString => EmptyString
  | String c s' => if isspace c then lstrip s' else s
  end.

Fixpoint rstrip (s : string) : string :=
  match s with
  | EmptyString => EmptyString
  | String c s' =>
      match rstrip s' with
      | EmptyString => if isspace c then EmptyString else String c EmptyString
      | r => String c r
      end
  end.

(** [s.strip()] *)
Definition strip (s : string) : string := rstrip (lstrip s).

(** Line boundaries of [str.splitlines] in ASCII: LF, VT, FF, CR (and CR LF
    as one boundary), FS, GS and RS. *)
Definition islinebreak (c : ascii) : bool :=
  let n := code c in
  ((10 <=? n) && (n <=? 13) || (28 <=? n) && (n <=? 30))%N.

Definition cons_line (c : ascii) (ls : list string) : list string :=
  match ls with
  | [] => [String c EmptyString]
  | l :: ls' => String c l :: ls'
  end.

(** [s.splitlines()]: the line breaks are dropped and a final line break
    does not open an empty last line. *)
Fixpoint splitlines (s : string) : list string :=
  match s with
  | EmptyString => []
  | String c s' =>
      if islinebreak c then
        EmptyString ::
          match s' with
          | String d s'' =>
              if bool_decide (c = "013"%char) && bool_decide (d = "010"%char)
              then splitlines s'' else splitlines s'
          | EmptyString => []
          end
      else cons_line c (splitlines s')
  end.

(** [sep.join(parts)] *)
Fixpoint join (sep : string) (parts : list string) : string :=
  match parts with
  | [] => EmptyString
  | [p] => p
  | p :: ps => p +:+ sep +:+ join sep ps
  end.

End PyStr.

(** ** The backtracking matcher of [re], for the script's patterns

    The three patterns of the script are sequences of quantified character
    classes, with at most one capturing group around one of them.  A pattern
    is matched as [re] does it: items from left to right, a greedy
    quantifier trying the longest repetition first and a lazy one the
    shortest first, the first success in that order being the match. *)

Module Re.

Record item := Item {
  cls : ascii → bool;     (* the character class *)
  lo : nat;               (* least number of repetitions *)
  hi : option nat;        (* greatest number, [None] when unbounded *)
  lazy : bool;            (* [+?] rather than [+] *)
  grp : bool              (* inside group 1 *)
}.

Definition pattern := list item.

(** A match: the matched text and the text of group 1. *)
Definition found : Type := string * string.

Definition push (c : ascii) (g : bool) (r : found) : found :=
  (String c r.1, if g then String c r.2 else r.2).

Definition may_repeat (hi : option nat) : bool :=
  match hi with Some O => false | _ => true end.

(** One quantified class [p{lo,hi}] followed by the continuation [k]. *)
Fixpoint rep (p : ascii → bool) (lz g : bool) (k : string → option found)
    (lo : nat) (hi : option nat) (s : string) {struct s} : option found :=
  match lz with
  | true =>
      match (match lo with O => k s | S _ => None end) with
      | Some r => Some r
      | None =>
          match s with
          | String c s' =>
              if p c && may_repeat hi
              then push c g <$> rep p lz g k (Nat.pred lo) (Nat.pred <$> hi) s'
              else None
          | EmptyString => None
          end
      end
  | false =>
      match (match s with
             | String c s' =>
                 if p c && may_repeat hi
                 then push c g <$> rep p lz g k (Nat.pred lo) (Nat.pred <$> hi) s'
                 else None
             | EmptyString => None
             end) with
      | Some r => Some r
      | None => match lo with O => k s | S _ => None end
      end
  end.

(** [pattern.match(s)]: the pattern matched at the start of [s]. *)
Fixpoint match_here (pat : pattern) (s : string) : option found :=
  match pat with
  | [] => Some (EmptyString, EmptyString)
  | i :: pat' => rep (cls i) (lazy i) (grp i) (match_here pat') (lo i) (hi i) s
  end.

(** [re.search(pattern, s)]: the match at the leftmost position that has
    one. *)
Fixpoint search (pat : pattern) (s : string) : option found :=
  match match_here pat s with
  | Some r => Some r
  | None =>
      match s with
      | String _ s' => search pat s'
      | EmptyString => None
      end
  end.

(** [pattern.findall(s)] for a pattern without group: the matched texts
    from left to right, the scan resuming where a match ended.  [skip]
    counts the characters of the last match still to pass. *)
Fixpoint findall_go (pat : pattern) (skip : nat) (s : string) : list string :=
  match skip with
  | S n =>
      match s with
      | String _ s' => findall_go pat n s'
      | EmptyString => []
      end
  | O =>
      match match_here pat s with
      | Some r =>
          r.1 :: match s with
                 | String _ s' => findall_go pat (Nat.pred (String.length r.1)) s'
                 | EmptyString => []
                 end
      | None =>
          match s with
          | String _ s' => findall_go pat 0 s'
          | EmptyString => []
          end
      end
  end.
Definition findall (pat : pattern) (s : string) : list string :=
  findall_go pat 0 s.

(** [re.sub(pattern, repl, s)] for a pattern that matches no empty text
    and a replacement without group references. *)
Fixpoint sub_go (pat : pattern) (repl : string) (skip : nat) (s : string) : string :=
  match s with
  | EmptyString => EmptyString
  | String c s' =>
      match skip with
      | S n => sub_go pat repl n s'
      | O =>
          match match_here pat s with
          | Some r => repl +:+ sub_go pat repl (Nat.pred (String.length r.1)) s'
          | None => String c (sub_go pat repl 0 s')
          end
      end
  end.
Definition sub (pat : pattern) (repl s : string) : string := sub_go pat repl 0 s.

(** Pattern syntax. *)
Definition one (p : ascii → bool) : item := Item p 1 (Some 1%nat) false false.
Definition star (p : ascii → bool) : item := Item p 0 None false false.
Definition plus (p : ascii → bool) : item := Item p 1 None false false.
Definition opt (p : ascii → bool) : item := Item p 0 (Some 1%nat) false false.
Definition at_least (n : nat) (p : ascii → bool) : item := Item p n None false false.
Definition lazy_plus_group (p : ascii → bool) : item := Item p 1 None true true.

Definition chr (c : ascii) : ascii → bool := λ x, bool_decide (x = c).
Definition chr_i (c : ascii) : ascii → bool :=
  λ x, bool_decide (PyStr.lower_char x = PyStr.lower_char c).
Definition any : ascii → bool := λ _, true.

(** A literal word, under [re.IGNORECASE]. *)
Fixpoint word_i (w : string) : pattern :=
  match w with
  | EmptyString => []
  | String c w' => one (chr_i c) :: word_i w'
  end.

End Re.

(** ** The script's tables *)

Definition PHRASES : list string := [
  "knowledge graph"; "knowledge graphs";
  "clinical guideline"; "clinical guidelines";
  "semantic web"; "semantic change";
  "machine learning"; "data sharing";
  "explainable ai"; "hybrid ai";
  "ontology"; "ontologies";
  "mapping"; "mappings";
  "recommendation"; "recommendations";
  "e-health"; "ehealth"
].

(** Normalization map for singular/plural and variants. *)
Definition NORM : gmap string string := list_to_map [
  ("knowledge graphs", "Knowledge Graphs");
  ("knowledge graph", "Knowledge Graphs");
  ("clinical guidelines", "Clinical Guidelines");
  ("clinical guideline", "Clinical Guidelines");
  ("semantic web", "Semantic Web");
  ("semantic change", "Semantic Change");
  ("machine learning", "Machine Learning");
  ("data sharing", "Data Sharing");
  ("explainable ai", "Explainable AI");
  ("hybrid ai", "Hybrid AI");
  ("ontologies", "Ontology");
  ("ontology", "Ontology");
  ("mappings", "Mapping");
  ("mapping", "Mapping");
  ("recommendations", "Recommendation");
  ("recommendation", "Recommendation");
  ("e-health", "eHealth");
  ("ehealth", "eHealth")
].

Definition STOPWORDS : gset string := list_to_set [
  "the"; "and"; "for"; "with"; "into"; "over"; "from"; "using"; "via"; "a";
  "an"; "of"; "on"; "in"; "to"; "by"; "be"; "based"; "towards"; "toward";
  "under"; "between"; "their"; "within"; "into"; "case"; "study"; "short";
  "paper"; "approach"; "method"; "system"; "framework"; "platform"; "model";
  "models"; "multi"; "multi-level"; "level"; "evaluation"; "analysis";
  "support"; "maintenance"; "adaptive"; "dynamic"; "evolving"; "internal";
  "external"; "generalizing"; "general"; "generalized"; "combining";
  "construction"; "exploitation"; "driven"; "driven"; "formal"; "formalizing";
  "formalisation"; "impact"
].

(** [WORD_RE]: [[A-Za-z][A-Za-z\-]{2,}] *)
Definition WORD_RE : Re.pattern := [
  Re.one PyStr.isalpha;
  Re.at_least 2 (λ c, PyStr.isalpha c || bool_decide (c = "-"%char))
].

(** [unicodedata.normalize('NFKD', text)] and [unicodedata.combining(c)] on
    ASCII text: every ASCII character is its own decomposition and has
    combining class 0. *)
Definition nfkd (text : string) : string := text.
Definition combining (c : ascii) : Z := 0.

Fixpoint keep (f : ascii → bool) (s : string) : string :=
  match s with
  | EmptyString => EmptyString
  | String c s' => if f c then String c (keep f s') else keep f s'
  end.

Definition strip_accents (text : string) : string :=
  keep (λ c, bool_decide (combining c = 0)) (nfkd text).

(** ** Entry segmenter *)

Definition NL : string := String "010"%char EmptyString.

(** The three places where [iter_bib_entries] yields an entry. *)
Inductive flush :=
  | AtRecordStart     (* a line starting with [@] arrives while an entry is held *)
  | AtDepthZero       (* the running depth is [<= 0] after a line *)
  | AtEndOfInput.     (* the lines are exhausted while an entry is held *)

Global Instance flush_eq_dec : EqDecision flush.
Proof. solve_decision. Defined.

(** The local variables of [iter_bib_entries]. *)
Record seg := Seg {
  current : list string;
  depth : Z;
  inside : bool
}.

Definition seg_init : seg := Seg [] 0 false.

Definition nonempty {A} (l : list A) : bool :=
  match l with [] => false | _ => true end.

Definition starts_record (line : string) : bool :=
  PyStr.startswith "@" (PyStr.strip line).

Definition net_braces (line : string) : Z :=
  PyStr.count "{"%char line - PyStr.count "}"%char line.

(** One iteration of the loop over the lines: the entries yielded during it,
    each with the place of its [yield], and the variables afterwards. *)
Definition seg_step (st : seg) (line : string) : list (flush * string) * seg :=
  let '(out, st) :=
    if starts_record line then
      if nonempty (current st)
      then ([(AtRecordStart, PyStr.join NL (current st))], Seg [] (depth st) true)
      else ([], Seg (current st) (depth st) true)
    else ([], st) in
  if inside st then
    let cur := current st ++ [line] in
    let d := depth st + net_braces line in
    if bool_decide (d ≤ 0) && nonempty cur
    then (out ++ [(AtDepthZero, PyStr.join NL cur)], Seg [] d false)
    else (out, Seg cur d true)
  else (out, st).

Fixpoint seg_run (st : seg) (lines : list string) : list (flush * string) * seg :=
  match lines with
  | [] => ([], st)
  | line :: lines' =>
      let '(out, st') := seg_step st line in
      let '(outs, st'') := seg_run st' lines' in
      (out ++ outs, st'')
  end.

Definition seg_finish (st : seg) : list (flush * string) :=
  if nonempty (current st) then [(AtEndOfInput, PyStr.join NL (current st))] else [].

(** The entries of a sequence of lines, each with the place of its yield. *)
Definition seg_trace (lines : list string) : list (flush * string) :=
  let '(out, st) := seg_run seg_init lines in out ++ seg_finish st.

Definition iter_bib_entries_trace (bib_text : string) : list (flush * string) :=
  seg_trace (PyStr.splitlines bib_text).

Definition iter_bib_entries (bib_text : string) : list string :=
  (iter_bib_entries_trace bib_text).*2.

(** ** Title extractor *)

(** The pattern of [extract_title] under [IGNORECASE] and [DOTALL]: the word
    title, white space, an equals sign, white space, an opening brace or
    double quote (code 34), the lazy group [(.+?)], a closing brace or double
    quote, white space and an optional comma. *)
Definition is_opener (c : ascii) : bool :=
  bool_decide (c = "{"%char) || bool_decide (c = "034"%char).
Definition is_closer (c : ascii) : bool :=
  bool_decide (c = "}"%char) || bool_decide (c = "034"%char).

Definition TITLE_RE : Re.pattern :=
  Re.word_i "title" ++ [
    Re.star PyStr.isspace;
    Re.one (Re.chr "="%char);
    Re.star PyStr.isspace;
    Re.one is_opener;
    Re.lazy_plus_group Re.any;
    Re.one is_closer;
    Re.star PyStr.isspace;
    Re.opt (Re.chr ","%char)
  ].

(** [\s+] *)
Definition SPACES_RE : Re.pattern := [Re.plus PyStr.isspace].

Definition clean_title (group1 : string) : string :=
  let title := PyStr.strip (PyStr.replace NL " " group1) in
  Re.sub SPACES_RE " " title.

Definition extract_title (entry : string) : option string :=
  match Re.search TITLE_RE entry with
  | None => None
  | Some m => Some (clean_title m.2)
  end.

(** ** Keyword extractor *)

(** [NORM.get(w, d)] *)
Definition norm_get (w d : string) : string := default d (NORM !! w).

Definition phrase_scan (lower_title : string) : list string :=
  fold_left
    (λ found p,
       if PyStr.contains p lower_title
       then found ++ [norm_get p (PyStr.title p)]
       else found)
    PHRASES [].

(** The order in which a [set] of strings is iterated is not fixed by the
    language (string hashes change from one process to the next): a run has
    some enumeration of each set, without repetition. *)
Record set_order := SetOrder {
  iterate : gset string → list string;
  iterate_perm : ∀ X, iterate X ≡ₚ elements X
}.

Definition elements_order : set_order := SetOrder elements (λ X, reflexivity _).

(** [sorted(tokens)] *)
Definition sorted (o : set_order) (tokens : gset string) : list string :=
  merge_sort String.le (iterate o tokens).

(** The title lower-cased with the phrases blanked out. *)
Definition remainder (title : string) : string :=
  fold_left (λ lower p, PyStr.replace p " " lower) PHRASES
            (strip_accents (PyStr.lower title)).

(** The body of the loop over the words of the remainder. *)
Definition token_step (used_phrases : list string) (tokens : gset string)
    (w : string) : gset string :=
  if bool_decide (w ∈ STOPWORDS) then tokens
  else if bool_decide (String.length w < 4)%nat then tokens
  else
    let norm := norm_get w (PyStr.capitalize w) in
    if bool_decide (PyStr.lower norm ∈ PyStr.lower <$> used_phrases) then tokens
    else {[norm]} ∪ tokens.

Definition token_set (title : string) (used_phrases : list string) : gset string :=
  fold_left (token_step used_phrases) (Re.findall WORD_RE (remainder title)) ∅.

Definition tokenize_remainder (o : set_order) (title : string)
    (used_phrases : list string) : list string :=
  sorted o (token_set title used_phrases).

(** A publication: the dictionary with the keys [title] and [keywords]. *)
Record pub := Pub {
  pub_title : string;
  keywords : list string
}.

Definition truthy (t : option string) : bool :=
  match t with
  | None | Some EmptyString => false
  | Some _ => true
  end.

Definition publication (o : set_order) (t : string) : pub :=
  let lt := strip_accents (PyStr.lower t) in
  let phrases := phrase_scan lt in
  let tokens := tokenize_remainder o t phrases in
  Pub t (phrases ++ tokens).

Fixpoint build_publication_keywords (o : set_order) (titles : list (option string))
    : list pub :=
  match titles with
  | [] => []
  | t :: titles' =>
      match t with
      | Some t' =>
          if truthy t
          then publication o t' :: build_publication_keywords o titles'
          else build_publication_keywords o titles'
      | None => build_publication_keywords o titles'
      end
  end.

(** ** Frequency aggregator *)

(** [freq.get(k, 0)] *)
Definition freq_get (freq : gmap string Z) (k : string) : Z := default 0 (freq !! k).

Definition count_keyword (freq : gmap string Z) (k : string) : gmap string Z :=
  <[k := freq_get freq k + 1]> freq.

Definition aggregate_keyword_freq (pubs : list pub) : gmap string Z :=
  fold_left (λ freq p, fold_left count_keyword (keywords p) freq) pubs ∅.

(** ** Pipeline driver *)

(** The document that [main] serialises. *)
Record payload := Payload {
  publications : list pub;
  generatedFrom : string;
  totalPublications : Z
}.

Definition filter_keywords (freq : gmap string Z) (min_freq : Z) (p : pub) : pub :=
  Pub (pub_title p)
      (filter (λ k, min_freq ≤ freq_get freq k) (keywords p)).

(** The body of [main] once the entries are at hand: the document written
    and the frequency map of the summary line. *)
Definition main_on_entries (o : set_order) (bib_path : string)
    (entries : list string) (min_freq : Z) : payload * gmap string Z :=
  let titles := extract_title <$> entries in
  let pubs := build_publication_keywords o titles in
  let freq := aggregate_keyword_freq pubs in
  let pubs :=
    if bool_decide (1 < min_freq) then filter_keywords freq min_freq <$> pubs
    else pubs in
  (Payload pubs bib_path (Z.of_nat (length pubs)), freq).

(** [main] from the text of the bibliography on. *)
Definition main (o : set_order) (bib_path text : string) (min_freq : Z)
    : payload * gmap string Z :=
  main_on_entries o bib_path (iter_bib_entries text) min_freq.

(** ** Counting keywords over publications *)

(** The number of places at which [k] stands in the keyword lists. *)
Definition occurrences (k : string) (pubs : list pub) : nat :=
  sum_list ((λ p, length (filter (λ x, x = k) (keywords p))) <$> pubs).

(** The number of publications whose keyword list contains [k]. *)
Definition pubs_containing (k : string) (pubs : list pub) : nat :=
  length (filter (λ p, k ∈ keywords p) pubs).

(** The entry of a frequency map for a keyword counted [n] times: a keyword
    never counted has no key. *)
Definition entry_of_count (n : nat) : option Z :=
  if decide (n = 0%nat) then None else Some (Z.of_nat n).

(** ** Vocabulary for the segmenter *)

(** The line holds neither an opening nor a closing brace. *)
Definition brace_free (line : string) : bool :=
  bool_decide (PyStr.count "{"%char line = 0)
  && bool_decide (PyStr.count "}"%char line = 0).

(** What the arrival of a line starting with [@] yields: the entry held, if
    there is one. *)
Definition pending (st : seg) : list (flush * string) :=
  if nonempty (current st)
  then [(AtRecordStart, PyStr.join NL (current st))] else [].

(** The braces of the lines, opening minus closing. *)
Definition net_total (lines : list string) : Z :=
  foldr (λ line acc, net_braces line + acc) 0 lines.

(** Starting from depth [d], the running depth is strictly positive after
    each of the lines. *)
Fixpoint stays_positive (d : Z) (lines : list string) : bool :=
  match lines with
  | [] => true
  | line :: lines' =>
      bool_decide (0 < d + net_braces line)
      && stays_positive (d + net_braces line) lines'
  end.

(** ** The title field, in the words of the specification

    A title field is the word title in any case, optional white space, an
    equals sign, optional white space and a value between delimiters; the
    value is not empty and runs up to the first closing delimiter.  Which
    characters close a value opened by [o] is the parameter [closes]. *)

(** Every closing brace or double quote closes the value, whatever opened
    it. *)
Definition closes_any (o c : ascii) : bool := is_closer c.

(** The delimiters match: a brace closes a brace, a quote closes a quote. *)
Definition closes_matching (o c : ascii) : bool :=
  bool_decide (o = "{"%char) && bool_decide (c = "}"%char)
  || bool_decide (o = "034"%char) && bool_decide (c = "034"%char).

(** [s] without the leading word [w], compared without regard to case. *)
Fixpoint strip_word_i (w s : string) : option string :=
  match w with
  | EmptyString => Some s
  | String a w' =>
      match s with
      | String b s' =>
          if bool_decide (PyStr.lower_char b = PyStr.lower_char a)
          then strip_word_i w' s' else None
      | EmptyString => None
      end
  end.

(** The text of [s] before its first character in [stop], if there is one. *)
Fixpoint text_before (stop : ascii → bool) (s : string) : option string :=
  match s with
  | EmptyString => None
  | String c s' => if stop c then Some EmptyString else String c <$> text_before stop s'
  end.

(** The value of a title field that starts at the first character of [s]. *)
Definition title_field_at (closes : ascii → ascii → bool) (s : string) : option string :=
  match strip_word_i "title" s with
  | None => None
  | Some s1 =>
      match PyStr.lstrip s1 with
      | String e s2 =>
          if bool_decide (e = "="%char) then
            match PyStr.lstrip s2 with
            | String o (String c s3) =>
                if is_opener o then String c <$> text_before (closes o) s3 else None
            | _ => None
            end
          else None
      | EmptyString => None
      end
  end.

(** The value of the first title field of the entry. *)
Fixpoint title_field (closes : ascii → ascii → bool) (entry : string) : option string :=
  match title_field_at closes entry with
  | Some v => Some v
  | None =>
      match entry with
      | String _ entry' => title_field closes entry'
      | EmptyString => None
      end
  end.

Definition starts_word (s : string) : bool :=
  match s with
  | String c _ => negb (PyStr.isspace c)
  | EmptyString => false
  end.

(** The words of a text: its maximal runs of characters that are not white
    space. *)
Fixpoint words (s : string) : list string :=
  match s with
  | EmptyString => []
  | String c s' =>
      if PyStr.isspace c then words s'
      else if starts_word s' then PyStr.cons_line c (words s')
      else String c EmptyString :: words s'
  end.

(** White space trimmed at both ends and every run of white space inside,
    line breaks included, replaced by one space. *)
Definition normalize_space (s : string) : string := PyStr.join " " (words s).

(** The double quote, and a text between double quotes. *)
Definition DQ : string := String "034"%char EmptyString.
Definition quoted (s : string) : string := DQ +:+ s +:+ DQ.

(** Line feeds turned into spaces. *)
Fixpoint nl_to_space (s : string) : string :=
  match s with
  | EmptyString => EmptyString
  | String c s' =>
      String (if bool_decide (c = "010"%char) then " "%char else c) (nl_to_space s')
  end.

(** Every run of white space replaced by one space; [in_run] tells that the
    previous character was white space already. *)
Fixpoint collapse (in_run : bool) (s : string) : string :=
  match s with
  | EmptyString => EmptyString
  | String c s' =>
      if PyStr.isspace c
      then if in_run then collapse true s' else String " " (collapse true s')
      else String c (collapse false s')
  end.

(** The length of the white space at the start of [s]. *)
Fixpoint run (s : string) : nat :=
  match s with
  | EmptyString => O
  | String c s' => if PyStr.isspace c then S (run s') else O
  end.

(** ** Well-formed records, for the segmenter *)

(** From depth [d], the running depth is strictly positive after every line
    but the last and exactly 0 after the last. *)
Fixpoint closes_at_end (d : Z) (lines : list string) : bool :=
  match lines with
  | [] => false
  | line :: lines' =>
      match lines' with
      | [] => bool_decide (d + net_braces line = 0)
      | _ => bool_decide (0 < d + net_braces line)
             && closes_at_end (d + net_braces line) lines'
      end
  end.

(** The lines of a record with balanced braces: a line starting with [@],
    then lines that do not, the braces closing on the last line and not
    before. *)
Definition record_block (block : list string) : bool :=
  match block with
  | [] => false
  | first :: more =>
      starts_record first
      && forallb (λ x, negb (starts_record x)) more
      && closes_at_end 0 block
  end.

(** An entry held by the segmenter starts with the line that opened it and
    holds no other line starting a record. *)
Definition well_held (cur : list string) : Prop :=
  match cur with
  | [] => True
  | first :: more =>
      starts_record first = true ∧ Forall (λ x, starts_record x = false) more
  end.

(** [entry] is a run of consecutive lines of [lines]: a line starting with
    [@] and the lines after it up to, but not including, some later line,
    none of them starting with [@]. *)
Definition entry_of_lines (lines : list string) (entry : string) : Prop :=
  ∃ before first more after,
    lines = before ++ (first :: more) ++ after
    ∧ starts_record first = true
    ∧ Forall (λ x, starts_record x = false) more
    ∧ entry = PyStr.join NL (first :: more).

(** The state of the segmenter after the lines [hist]: it is inside an
    entry exactly when it holds lines, and the lines held are the last lines
    read, from the line that opened the entry on. *)
Definition seg_inv (hist : list string) (st : seg) : Prop :=
  inside st = nonempty (current st)
  ∧ well_held (current st)
  ∧ ∃ h, hist = h ++ current st.

(** ** Vocabulary for texts *)

(** Every character of [s] is in the class [f]. *)
Fixpoint all_chars (f : ascii → bool) (s : string) : bool :=
  match s with
  | EmptyString => true
  | String c s' => f c && all_chars f s'
  end.

(** The word [w] stands somewhere in [s], compared without regard to
    case. *)
Fixpoint contains_i (w s : string) : bool :=
  bool_decide (is_Some (strip_word_i w s))
  || match s with
     | EmptyString => false
     | String _ s' => contains_i w s'
     end.

(** The longest start of [s] made of characters of the class [f]. *)
Fixpoint take_class (f : ascii → bool) (s : string) : string :=
  match s with
  | EmptyString => EmptyString
  | String c s' => if f c then String c (take_class f s') else EmptyString
  end.

(** The class [[A-Za-z\-]] of [WORD_RE]. *)
Definition is_word_char (c : ascii) : bool :=
  PyStr.isalpha c || bool_decide (c = "-"%char).

(** A word as [WORD_RE] matches it: a letter, then at least two letters or
    hyphens. *)
Definition word_shaped (w : string) : bool :=
  match w with
  | EmptyString => false
  | String c w' =>
      PyStr.isalpha c && all_chars is_word_char w'
      && bool_decide (2 ≤ String.length w')%nat
  end.

(** The braces of the entries yielded, opening minus closing. *)
Definition net_yielded (out : list (flush * string)) : Z :=
  foldr (λ e acc, net_braces e.2 + acc) 0 out.

(** * Properties *)

(** ** Sorting a set *)

Lemma sorted_canonical (o : set_order) (X : gset string) :
  sorted o X = merge_sort String.le (elements X).
Proof.
  unfold sorted.
  apply (Sorted_unique String.le); try apply (Sorted_merge_sort String.le).
  rewrite !merge_sort_Permutation. apply iterate_perm.
Qed.

Lemma sorted_order_irrelevant (o1 o2 : set_order) (X : gset string) :
  sorted o1 X = sorted o2 X.
Proof. by rewrite !sorted_canonical. Qed.

Lemma sorted_is_sorted (o : set_order) (X : gset string) :
  Sorted String.le (sorted o X).
Proof. apply (Sorted_merge_sort String.le). Qed.

Lemma elem_of_sorted (o : set_order) (X : gset string) (k : string) :
  k ∈ sorted o X ↔ k ∈ X.
Proof.
  unfold sorted. rewrite merge_sort_Permutation, iterate_perm.
  apply elem_of_elements.
Qed.

Lemma NoDup_sorted (o : set_order) (X : gset string) : NoDup (sorted o X).
Proof.
  unfold sorted. rewrite merge_sort_Permutation, iterate_perm.
  apply NoDup_elements.
Qed.

(** ** Keyword extractor *)

Lemma phrase_scan_go (lt : string) (ps found : list string) :
  fold_left
    (λ found p,
       if PyStr.contains p lt then found ++ [norm_get p (PyStr.title p)] else found)
    ps found
  = found ++ ((λ p, norm_get p (PyStr.title p)) <$> filter (λ p, PyStr.contains p lt) ps).
Proof.
  revert found. induction ps as [|p ps IH]; intros found; simpl.
  - by rewrite app_nil_r.
  - rewrite IH, filter_cons. destruct (PyStr.contains p lt); simpl; [|done].
    by rewrite <- app_assoc.
Qed.

(** The phrase keywords come in the order of the phrase list. *)
Lemma phrase_scan_order (lt : string) :
  phrase_scan lt
  = (λ p, norm_get p (PyStr.title p)) <$> filter (λ p, PyStr.contains p lt) PHRASES.
Proof. unfold phrase_scan. by rewrite phrase_scan_go. Qed.

Lemma token_step_avoids (used : list string) (ws : list string) (T : gset string) :
  (∀ k, k ∈ T → PyStr.lower k ∉ PyStr.lower <$> used) →
  ∀ k, k ∈ fold_left (token_step used) ws T → PyStr.lower k ∉ PyStr.lower <$> used.
Proof.
  revert T. induction ws as [|w ws IH]; intros T HT; simpl; [done|].
  apply IH. intros k. unfold token_step.
  repeat case_bool_decide; auto.
  rewrite elem_of_union, elem_of_singleton. intros [->|?]; auto.
Qed.

(** No token keyword equals, lower-cased, a lower-cased phrase keyword of the
    same title. *)
Lemma tokens_avoid_phrases (o : set_order) (title : string) (used : list string)
    (k u : string) :
  k ∈ tokenize_remainder o title used → u ∈ used → PyStr.lower k ≠ PyStr.lower u.
Proof.
  unfold tokenize_remainder. rewrite elem_of_sorted. intros Hk Hu Heq.
  eapply (token_step_avoids used); [|exact Hk|].
  - intros ? ?%not_elem_of_empty. done.
  - rewrite Heq. by apply list_elem_of_fmap_2.
Qed.

Lemma publication_order_irrelevant (o1 o2 : set_order) (t : string) :
  publication o1 t = publication o2 t.
Proof.
  unfold publication, tokenize_remainder.
  by rewrite (sorted_order_irrelevant o1 o2).
Qed.

Lemma build_order_irrelevant (o1 o2 : set_order) (titles : list (option string)) :
  build_publication_keywords o1 titles = build_publication_keywords o2 titles.
Proof.
  induction titles as [|[t|] titles IH]; simpl; [done| |done].
  rewrite IH, (publication_order_irrelevant o1 o2). done.
Qed.

(** C1 (code at the failing input).  The title "Knowledge Graphs" contains
    both the phrase "knowledge graph" and the phrase "knowledge graphs"; each
    is looked up in the normalization map on its own, so the canonical
    phrase keyword "Knowledge Graphs" is appended twice to the keyword list
    of the publication, whatever the iteration order of the token set. *)
Theorem phrase_keyword_repeated (o : set_order) :
  keywords (publication o "Knowledge Graphs")
  = ["Knowledge Graphs"; "Knowledge Graphs"].
Proof.
  rewrite (publication_order_irrelevant o elements_order).
  vm_compute. reflexivity.
Qed.

(** C3 (code at the scenario input).  The one-line entry of the scenario
    gives exactly one publication with the expected title, but its keyword
    list is "Knowledge Graphs" twice, then "Ontology" and "Mapping": the
    phrases "knowledge graph" and "knowledge graphs" both occur in the
    title. *)
Theorem scenario_keywords (o : set_order) (bib_path : string) :
  publications
    (main o bib_path
       "@article{a1, title={Knowledge Graphs and Ontology Mapping}, year=2020}" 1).1
  = [Pub "Knowledge Graphs and Ontology Mapping"
         ["Knowledge Graphs"; "Knowledge Graphs"; "Ontology"; "Mapping"]].
Proof.
  unfold main, main_on_entries.
  rewrite (build_order_irrelevant o elements_order).
  vm_compute. reflexivity.
Qed.

(** C8.  Two runs on the same text with the same configuration write the
    same document and compute the same frequency map, whatever order each
    run iterates its token sets in; the keyword list of a title is its
    phrase keywords in the order of the phrase list followed by its token
    keywords, which are sorted lexicographically and without repetition. *)
Theorem pipeline_deterministic (o1 o2 : set_order) (bib_path text : string)
    (min_freq : Z) :
  main o1 bib_path text min_freq = main o2 bib_path text min_freq
  ∧ ∀ t,
      let lt := strip_accents (PyStr.lower t) in
      let tokens := tokenize_remainder o1 t (phrase_scan lt) in
      keywords (publication o1 t) = phrase_scan lt ++ tokens
      ∧ phrase_scan lt
        = (λ p, norm_get p (PyStr.title p)) <$> filter (λ p, PyStr.contains p lt) PHRASES
      ∧ Sorted String.le tokens
      ∧ NoDup tokens.
Proof.
  split.
  - unfold main, main_on_entries.
    by rewrite (build_order_irrelevant o1 o2).
  - intros t lt tokens. split; [done|]. split; [apply phrase_scan_order|].
    split; [apply sorted_is_sorted|apply NoDup_sorted].
Qed.

Lemma build_app (o : set_order) (l1 l2 : list (option string)) :
  build_publication_keywords o (l1 ++ l2)
  = build_publication_keywords o l1 ++ build_publication_keywords o l2.
Proof.
  induction l1 as [|[[|c t]|] l1 IH]; simpl; rewrite ?IH; done.
Qed.

(** C9.  An entry from which no title is extracted leaves no trace in the
    run: the document (publications and their count) and the frequency map
    are those of the run without that entry.  The run is a total function:
    nothing is raised. *)
Theorem missing_title_skipped (o : set_order) (bib_path : string)
    (before after : list string) (entry : string) (min_freq : Z) :
  extract_title entry = None →
  main_on_entries o bib_path (before ++ entry :: after) min_freq
  = main_on_entries o bib_path (before ++ after) min_freq.
Proof.
  intros Hnone. unfold main_on_entries.
  rewrite !fmap_app, fmap_cons, Hnone, !build_app. simpl. done.
Qed.

Lemma missing_title_skipped_witness :
  extract_title "@misc{k1, year=2020}" = None
  ∧ main_on_entries elements_order "Marcos.bib"
      (["@article{a1, title={Semantic Web}}"] ++ "@misc{k1, year=2020}" :: []) 1
    = main_on_entries elements_order "Marcos.bib"
      (["@article{a1, title={Semantic Web}}"] ++ []) 1.
Proof.
  split; [vm_compute; reflexivity|].
  apply (missing_title_skipped elements_order "Marcos.bib"
           ["@article{a1, title={Semantic Web}}"] [] "@misc{k1, year=2020}" 1).
  vm_compute; reflexivity.
Defined.

(** ** Frequency aggregator *)

Lemma count_keyword_lookup (freq : gmap string Z) (k x : string) (n : nat) :
  freq !! x = entry_of_count n →
  count_keyword freq k !! x = entry_of_count (if decide (x = k) then S n else n).
Proof.
  intros Hx. unfold count_keyword, freq_get.
  destruct (decide (x = k)) as [->|Hne].
  - rewrite lookup_insert_eq, Hx. unfold entry_of_count.
    rewrite (decide_False (P := S n = 0%nat)) by lia.
    destruct (decide (n = 0%nat)) as [->|]; simpl; f_equal; lia.
  - by rewrite lookup_insert_ne.
Qed.

Lemma fold_count_lookup (l : list string) (freq : gmap string Z) (x : string) (n : nat) :
  freq !! x = entry_of_count n →
  fold_left count_keyword l freq !! x
  = entry_of_count (n + length (filter (λ y, y = x) l)).
Proof.
  revert freq n. induction l as [|k l IH]; intros freq n Hx; simpl.
  - by rewrite Nat.add_0_r.
  - rewrite (IH _ _ (count_keyword_lookup _ k _ _ Hx)), filter_cons.
    destruct (decide (x = k)) as [->|Hne].
    + rewrite decide_True by done. simpl. f_equal. lia.
    + rewrite decide_False by done. done.
Qed.

Lemma aggregate_go (pubs : list pub) (freq : gmap string Z) (x : string) (n : nat) :
  freq !! x = entry_of_count n →
  fold_left (λ freq p, fold_left count_keyword (keywords p) freq) pubs freq !! x
  = entry_of_count (n + occurrences x pubs).
Proof.
  revert freq n. induction pubs as [|p pubs IH]; intros freq n Hx; simpl.
  - unfold occurrences. simpl. by rewrite Nat.add_0_r.
  - rewrite (IH _ _ (fold_count_lookup (keywords p) _ _ _ Hx)).
    unfold occurrences. rewrite fmap_cons. simpl. f_equal. symmetry. apply Nat.add_assoc.
Qed.

(** The value of a keyword is the number of its occurrences in the keyword
    lists. *)
Lemma aggregate_occurrences (pubs : list pub) (k : string) :
  aggregate_keyword_freq pubs !! k = entry_of_count (occurrences k pubs).
Proof.
  unfold aggregate_keyword_freq.
  by rewrite (aggregate_go pubs ∅ k 0 (lookup_empty k)).
Qed.

Lemma filter_eq_NoDup (k : string) (l : list string) :
  NoDup l →
  length (filter (λ x, x = k) l) = if decide (k ∈ l) then 1%nat else 0%nat.
Proof.
  induction 1 as [|x l Hx Hl IH].
  - destruct (decide (k ∈ [])) as [Hin|]; [by apply not_elem_of_nil in Hin|done].
  - rewrite filter_cons. destruct (decide (x = k)) as [->|Hne]; simpl.
    + rewrite IH. destruct (decide (k ∈ l)); [done|].
      destruct (decide (k ∈ k :: l)) as [|Hnin]; [done|].
      destruct Hnin. apply list_elem_of_here.
    + rewrite IH. destruct (decide (k ∈ l)) as [Hin|Hnin].
      * destruct (decide (k ∈ x :: l)) as [|Hn]; [done|].
        destruct Hn. by apply list_elem_of_further.
      * destruct (decide (k ∈ x :: l)) as [Hin|]; [|done].
        apply elem_of_cons in Hin as [?|?]; congruence.
Qed.

Lemma occurrences_NoDup (pubs : list pub) (k : string) :
  Forall (λ p, NoDup (keywords p)) pubs →
  occurrences k pubs = pubs_containing k pubs.
Proof.
  unfold occurrences, pubs_containing.
  induction 1 as [|p pubs Hp Hpubs IH]; [done|].
  rewrite fmap_cons, filter_cons. simpl.
  rewrite IH, (filter_eq_NoDup _ _ Hp).
  destruct (decide (k ∈ keywords p)); done.
Qed.

Lemma occurrences_pos (pubs : list pub) (p : pub) (k : string) :
  p ∈ pubs → k ∈ keywords p → (0 < occurrences k pubs)%nat.
Proof.
  unfold occurrences. intros Hp Hk.
  induction Hp as [p pubs|p q pubs Hp IH]; rewrite fmap_cons; simpl.
  - apply list_elem_of_split in Hk as (l1 & l2 & ->).
    rewrite filter_app, filter_cons, decide_True by done.
    rewrite length_app. simpl. lia.
  - specialize (IH Hk). apply Nat.lt_lt_add_l. exact IH.
Qed.

(** X20.  On publications whose keyword lists repeat no keyword, the value
    the aggregator gives a keyword is the number of publications whose
    keyword list contains it, a keyword in no list having no key.  The value
    is reached by adding 1 for each place where the keyword stands in a
    list. *)
Theorem aggregate_counts (pubs : list pub) (k : string) :
  aggregate_keyword_freq pubs !! k = entry_of_count (occurrences k pubs)
  ∧ (Forall (λ p, NoDup (keywords p)) pubs →
     aggregate_keyword_freq pubs !! k = entry_of_count (pubs_containing k pubs)).
Proof.
  split; [apply aggregate_occurrences|].
  intros Hnd. rewrite <- (occurrences_NoDup pubs k Hnd).
  apply aggregate_occurrences.
Qed.

Lemma aggregate_counts_witness :
  Forall (λ p, NoDup (keywords p))
    [Pub "Semantic Web Mapping" ["Semantic Web"; "Mapping"];
     Pub "Ontology Mapping" ["Ontology"; "Mapping"]]
  ∧ aggregate_keyword_freq
      [Pub "Semantic Web Mapping" ["Semantic Web"; "Mapping"];
       Pub "Ontology Mapping" ["Ontology"; "Mapping"]] !! "Mapping"
    = entry_of_count
        (pubs_containing "Mapping"
           [Pub "Semantic Web Mapping" ["Semantic Web"; "Mapping"];
            Pub "Ontology Mapping" ["Ontology"; "Mapping"]]).
Proof.
  assert (Hnd : Forall (λ p, NoDup (keywords p))
            [Pub "Semantic Web Mapping" ["Semantic Web"; "Mapping"];
             Pub "Ontology Mapping" ["Ontology"; "Mapping"]]).
  { apply (bool_decide_unpack _). vm_compute. exact I. }
  split; [exact Hnd|].
  exact (proj2 (aggregate_counts _ "Mapping") Hnd).
Defined.

(** C2 (code at the failing input).  The title "Knowledge Graphs" gives one
    publication, whose keyword list holds "Knowledge Graphs" twice because
    the phrase scan does not remove the repetition; the aggregator then
    gives that keyword the value 2, while one publication contains it. *)
Lemma aggregate_counts_occurrences_not_publications :
  let pubs := build_publication_keywords elements_order [Some "Knowledge Graphs"] in
  pubs_containing "Knowledge Graphs" pubs = 1%nat
  ∧ aggregate_keyword_freq pubs !! "Knowledge Graphs" = Some 2
  ∧ aggregate_keyword_freq pubs !! "Knowledge Graphs"
    ≠ entry_of_count (pubs_containing "Knowledge Graphs" pubs).
Proof. vm_compute. split; [done|]. split; [done|]. discriminate. Qed.

(** ** Pipeline driver *)

Lemma filter_keywords_subset (freq : gmap string Z) (min_freq : Z) (p : pub) :
  keywords (filter_keywords freq min_freq p) ⊆ keywords p.
Proof. intros k. simpl. rewrite list_elem_of_filter. tauto. Qed.

(** C6.  Whatever the text and the threshold, the count written in the
    document is the length of its list of publications, and every keyword of
    every publication written is a key of the frequency map, with a value of
    at least 1. *)
Theorem document_round_trip (o : set_order) (bib_path text : string) (min_freq : Z) :
  let doc := (main o bib_path text min_freq).1 in
  let freq := (main o bib_path text min_freq).2 in
  totalPublications doc = Z.of_nat (length (publications doc))
  ∧ ∀ p k, p ∈ publications doc → k ∈ keywords p →
      ∃ n, freq !! k = Some n ∧ 1 ≤ n.
Proof.
  unfold main, main_on_entries. simpl. split; [done|].
  set (pubs := build_publication_keywords o _).
  assert (Hbase : ∀ p k, p ∈ pubs → k ∈ keywords p →
            ∃ n, aggregate_keyword_freq pubs !! k = Some n ∧ 1 ≤ n).
  { intros p k Hp Hk. pose proof (occurrences_pos pubs p k Hp Hk) as Hpos.
    rewrite aggregate_occurrences. unfold entry_of_count.
    rewrite decide_False by lia. eexists. split; [done|lia]. }
  intros p k Hp Hk. case_bool_decide; [|by eauto].
  apply list_elem_of_fmap in Hp as (p0 & -> & Hp0).
  apply filter_keywords_subset in Hk. by eauto.
Qed.

Lemma document_round_trip_witness :
  ∃ n, (main elements_order "Marcos.bib" "@article{a1, title={Semantic Web Mapping}}" 1).2
         !! "Mapping" = Some n
       ∧ 1 ≤ n.
Proof.
  apply (proj2 (document_round_trip elements_order "Marcos.bib"
                  "@article{a1, title={Semantic Web Mapping}}" 1)
           (Pub "Semantic Web Mapping" ["Semantic Web"; "Mapping"]) "Mapping").
  - vm_compute. apply list_elem_of_here.
  - simpl. apply list_elem_of_further, list_elem_of_here.
Defined.

(** C7.  For thresholds [T1 < T2], the run under [T2] writes the same
    publications as the run under [T1], and each keeps under [T2] only
    keywords that it keeps under [T1]. *)
Theorem threshold_monotone (o : set_order) (bib_path text : string) (T1 T2 : Z) :
  T1 < T2 →
  Forall2 (λ p2 p1, pub_title p2 = pub_title p1 ∧ keywords p2 ⊆ keywords p1)
    (publications (main o bib_path text T2).1)
    (publications (main o bib_path text T1).1).
Proof.
  intros Hlt. unfold main, main_on_entries. simpl.
  set (pubs := build_publication_keywords o _).
  set (freq := aggregate_keyword_freq pubs).
  repeat case_bool_decide; try lia.
  - apply Forall2_fmap, Forall_Forall2_diag, Forall_forall. intros p _.
    split; [done|]. intros k. simpl. rewrite !list_elem_of_filter.
    intros [? ?]. split; [lia|done].
  - apply Forall2_fmap_l, Forall_Forall2_diag, Forall_forall. intros p _.
    split; [done|]. apply filter_keywords_subset.
  - apply Forall_Forall2_diag, Forall_forall. intros p _. done.
Qed.

Lemma threshold_monotone_witness :
  1 < 2
  ∧ Forall2 (λ p2 p1, pub_title p2 = pub_title p1 ∧ keywords p2 ⊆ keywords p1)
      (publications
         (main elements_order "Marcos.bib" "@article{a1, title={Semantic Web Mapping}}" 2).1)
      (publications
         (main elements_order "Marcos.bib" "@article{a1, title={Semantic Web Mapping}}" 1).1).
Proof.
  split; [lia|].
  apply (threshold_monotone elements_order "Marcos.bib"
           "@article{a1, title={Semantic Web Mapping}}" 1 2).
  lia.
Defined.

(** ** Entry segmenter *)

Lemma brace_free_net (line : string) : brace_free line → net_braces line = 0.
Proof.
  unfold brace_free, net_braces.
  intros [H1 H2]%andb_prop_elim.
  apply bool_decide_unpack in H1, H2. lia.
Qed.

(** Outside an entry, a line that does not start a record is passed over. *)
Lemma seg_step_outside (st : seg) (line : string) :
  inside st = false → starts_record line = false → seg_step st line = ([], st).
Proof. intros Hin Hst. unfold seg_step. by rewrite Hst, Hin. Qed.

Lemma seg_run_outside (st : seg) (lines : list string) :
  inside st = false → Forall (λ x, starts_record x = false) lines →
  seg_run st lines = ([], st).
Proof.
  intros Hin. induction 1 as [|l ls Hl Hls IH]; simpl; [done|].
  by rewrite (seg_step_outside st l Hin Hl), IH.
Qed.

(** Inside an entry at positive depth, a line that neither starts a record
    nor changes the depth is appended and nothing is yielded. *)
Lemma seg_step_held (st : seg) (line : string) :
  inside st = true → 0 < depth st → starts_record line = false →
  net_braces line = 0 →
  seg_step st line = ([], Seg (current st ++ [line]) (depth st) true).
Proof.
  intros Hin Hd Hst Hnet. unfold seg_step. rewrite Hst, Hin, Hnet, Z.add_0_r.
  rewrite bool_decide_eq_false_2 by lia. done.
Qed.

Lemma seg_run_held (st : seg) (lines : list string) :
  inside st = true → 0 < depth st →
  Forall (λ x, brace_free x ∧ starts_record x = false) lines →
  seg_run st lines = ([], Seg (current st ++ lines) (depth st) true).
Proof.
  intros Hin Hd Hall. revert st Hin Hd.
  induction Hall as [|l ls [Hbf Hl] Hls IH]; intros st Hin Hd; simpl.
  - rewrite app_nil_r. by destruct st; simpl in *; subst.
  - rewrite (seg_step_held st l Hin Hd Hl (brace_free_net l Hbf)).
    rewrite IH by done. simpl. by rewrite <- app_assoc.
Qed.

(** The first line of an entry: a line starting a record, without braces. *)
Lemma seg_step_record_start (st : seg) (line : string) :
  starts_record line = true → net_braces line = 0 →
  seg_step st line =
    if bool_decide (depth st ≤ 0)
    then (pending st ++ [(AtDepthZero, line)], Seg [] (depth st) false)
    else (pending st, Seg [line] (depth st) true).
Proof.
  intros Hst Hnet. unfold seg_step, pending. rewrite Hst.
  destruct st as [cur d ins]; simpl.
  destruct cur as [|c cur]; simpl; rewrite Hnet, Z.add_0_r;
    case_bool_decide; simpl; done.
Qed.

(** C4 (amended).  Take an entry without braces: a line starting with [@]
    followed by lines that do not start a record.  If the running depth is
    zero or negative when its first line arrives, as it is at the start of
    the input, the depth check yields that first line alone at once and the
    lines after it are passed over.  If the running depth is strictly
    positive, nothing is yielded by the depth check: the entry is held
    whole, and it is yielded by the next line starting with [@] or at the
    end of the input. *)
Theorem brace_free_entry (st : seg) (first : string) (more : list string) :
  starts_record first = true →
  brace_free first →
  Forall (λ x, brace_free x ∧ starts_record x = false) more →
  (depth st ≤ 0 →
     seg_run st (first :: more)
     = (pending st ++ [(AtDepthZero, first)], Seg [] (depth st) false))
  ∧ (0 < depth st →
     let held := Seg (first :: more) (depth st) true in
     seg_run st (first :: more) = (pending st, held)
     ∧ seg_finish held = [(AtEndOfInput, PyStr.join NL (first :: more))]
     ∧ ∀ next, starts_record next = true →
         ∃ out st', seg_step held next
                    = ((AtRecordStart, PyStr.join NL (first :: more)) :: out, st')).
Proof.
  intros Hst Hbf Hmore. split; intros Hd; simpl.
  - rewrite (seg_step_record_start st first Hst (brace_free_net _ Hbf)).
    rewrite bool_decide_eq_true_2 by done.
    rewrite seg_run_outside; [by rewrite app_nil_r|done|].
    eapply Forall_impl; [exact Hmore|]. by intros x [_ ?].
  - rewrite (seg_step_record_start st first Hst (brace_free_net _ Hbf)).
    rewrite bool_decide_eq_false_2 by lia.
    rewrite seg_run_held by done. simpl. rewrite app_nil_r.
    split; [done|]. split; [done|].
    intros next Hnext. unfold seg_step. rewrite Hnext. simpl.
    destruct (bool_decide _ && _); eauto.
Qed.

Lemma brace_free_entry_witness :
  starts_record "@misc" = true
  ∧ brace_free "@misc"
  ∧ Forall (λ x, brace_free x ∧ starts_record x = false) ["note = none"]
  ∧ seg_run seg_init ["@misc"; "note = none"]
    = ([(AtDepthZero, "@misc")], Seg [] 0 false).
Proof.
  assert (H1 : starts_record "@misc" = true) by reflexivity.
  assert (H2 : brace_free "@misc") by (vm_compute; exact I).
  assert (H3 : Forall (λ x, brace_free x ∧ starts_record x = false) ["note = none"]).
  { constructor; [|constructor]. split; [vm_compute; exact I|reflexivity]. }
  split; [exact H1|]. split; [exact H2|]. split; [exact H3|].
  apply (proj1 (brace_free_entry seg_init "@misc" ["note = none"] H1 H2 H3)).
  simpl. lia.
Defined.

(** C4 (as stated, refuted).  The text of the two lines "@misc" and
    "note = none" has no brace.  Its entry is not held until the end of the
    input: the depth check yields the first line alone as soon as it is
    read, the running depth being 0, and the second line is passed over. *)
Lemma brace_free_entry_closed_by_depth :
  brace_free "@misc" = true
  ∧ brace_free "note = none" = true
  ∧ iter_bib_entries_trace ("@misc" +:+ NL +:+ "note = none")
    = [(AtDepthZero, "@misc")].
Proof. repeat split; vm_compute; reflexivity. Qed.

(** While the running depth stays positive, a line is appended to the entry
    held (a new one if the line starts a record), its braces are added to the
    depth, and only a line starting a record yields. *)
Lemma seg_step_positive (st : seg) (line : string) :
  inside st = true → 0 < depth st + net_braces line →
  seg_step st line
  = (if starts_record line then pending st else [],
     Seg ((if starts_record line then [] else current st) ++ [line])
         (depth st + net_braces line) true).
Proof.
  intros Hin Hd. unfold seg_step, pending.
  destruct st as [cur d ins]; simpl in *; subst ins.
  destruct (starts_record line); [destruct cur as [|c cur]|]; simpl;
    rewrite bool_decide_eq_false_2 by lia; done.
Qed.

Lemma pending_cause (st : seg) : Forall (λ e, e.1 = AtRecordStart) (pending st).
Proof. unfold pending. destruct (nonempty _); repeat constructor. Qed.

Lemma seg_finish_cause (st : seg) : Forall (λ e, e.1 = AtEndOfInput) (seg_finish st).
Proof. unfold seg_finish. destruct (nonempty _); repeat constructor. Qed.

(** The line that brings the running depth to zero or below closes the
    entry held: the depth check yields it with that line. *)
Lemma seg_step_closing (st : seg) (line : string) :
  inside st = true → depth st + net_braces line ≤ 0 →
  seg_step st line
  = ((if starts_record line then pending st else [])
     ++ [(AtDepthZero,
          PyStr.join NL ((if starts_record line then [] else current st) ++ [line]))],
     Seg [] (depth st + net_braces line) false).
Proof.
  intros Hin Hd. unfold seg_step, pending.
  destruct st as [cur d ins]; simpl in *; subst ins.
  destruct (starts_record line); [destruct cur as [|c cur]|]; simpl;
    rewrite bool_decide_eq_true_2 by lia; simpl; try done; by destruct cur.
Qed.

(** C10 (amended).  The depth is carried from one entry to the next and
    never reset: from a point where the segmenter is inside an entry, as it
    is once an entry has been yielded by a line starting with [@], and for as
    long as the running depth stays strictly positive over the lines that
    follow, the depth after those lines is the depth before plus all their
    braces, opening minus closing, and every entry yielded from there on is
    yielded by a line starting with [@] or at the end of the input, none by
    the depth check.  The next line decides: if it leaves the running depth
    strictly positive, it yields nothing by the depth check either; if its
    closing braces bring the running depth back to zero or below, the depth
    check yields the entry held, that line included, and the segmenter is
    outside an entry again with the depth reached. *)
Theorem depth_never_reset (st : seg) (lines : list string) (next : string) :
  inside st = true →
  stays_positive (depth st) lines →
  depth (seg_run st lines).2 = depth st + net_total lines
  ∧ inside (seg_run st lines).2 = true
  ∧ Forall (λ e, e.1 = AtRecordStart) (seg_run st lines).1
  ∧ Forall (λ e, e.1 ≠ AtDepthZero)
      ((seg_run st lines).1 ++ seg_finish (seg_run st lines).2)
  ∧ (0 < depth st + net_total lines + net_braces next →
     Forall (λ e, e.1 = AtRecordStart) (seg_step (seg_run st lines).2 next).1
     ∧ inside (seg_step (seg_run st lines).2 next).2 = true)
  ∧ (depth st + net_total lines + net_braces next ≤ 0 →
     seg_step (seg_run st lines).2 next
     = ((if starts_record next then pending (seg_run st lines).2 else [])
        ++ [(AtDepthZero,
             PyStr.join NL
               ((if starts_record next then [] else current (seg_run st lines).2)
                ++ [next]))],
        Seg [] (depth st + net_total lines + net_braces next) false)).
Proof.
  intros Hin Hpos.
  assert (Hmain : depth (seg_run st lines).2 = depth st + net_total lines
                  ∧ inside (seg_run st lines).2 = true
                  ∧ Forall (λ e, e.1 = AtRecordStart) (seg_run st lines).1).
  { revert st Hin Hpos. induction lines as [|l ls IH]; intros st Hin Hpos; simpl.
    - split; [lia|]. split; [done|constructor].
    - simpl in Hpos. apply andb_prop_elim in Hpos as [Hd Hrest].
      apply bool_decide_unpack in Hd.
      rewrite (seg_step_positive st l Hin Hd).
      set (st1 := Seg _ _ true).
      destruct (IH st1 eq_refl Hrest) as (IHd & IHi & IHo).
      destruct (seg_run st1 ls) as [outs st2]; simpl in *.
      split; [rewrite IHd; lia|]. split; [done|].
      apply Forall_app. split; [|done].
      destruct (starts_record l); [apply pending_cause|constructor]. }
  destruct Hmain as (Hd & Hi & Ho).
  split; [done|]. split; [done|]. split; [done|]. split; [|split].
  - apply Forall_app. split.
    + eapply Forall_impl; [exact Ho|]. intros e He. by rewrite He.
    + eapply Forall_impl; [apply seg_finish_cause|]. intros e He. by rewrite He.
  - intros Hnext. rewrite <- Hd in Hnext.
    rewrite (seg_step_positive _ next Hi Hnext). cbn [fst snd inside].
    split; [|done]. destruct (starts_record next); [apply pending_cause|constructor].
  - intros Hnext. rewrite <- Hd in Hnext |- *.
    apply (seg_step_closing _ next Hi Hnext).
Qed.

Lemma depth_never_reset_witness :
  inside (Seg ["@a{x"] 1 true) = true
  ∧ stays_positive (depth (Seg ["@a{x"] 1 true)) ["@b{y}"; "@c{"]
  ∧ Forall (λ e, e.1 ≠ AtDepthZero)
      ((seg_run (Seg ["@a{x"] 1 true) ["@b{y}"; "@c{"]).1
       ++ seg_finish (seg_run (Seg ["@a{x"] 1 true) ["@b{y}"; "@c{"]).2)
  ∧ seg_step (seg_run (Seg ["@a{x"] 1 true) ["@b{y}"; "@c{"]).2 "}}"
    = ([(AtDepthZero, "@c{" +:+ NL +:+ "}}")], Seg [] 0 false).
Proof.
  assert (H1 : inside (Seg ["@a{x"] 1 true) = true) by reflexivity.
  assert (H2 : stays_positive (depth (Seg ["@a{x"] 1 true)) ["@b{y}"; "@c{"])
    by (vm_compute; exact I).
  pose proof (depth_never_reset (Seg ["@a{x"] 1 true) ["@b{y}"; "@c{"] "}}" H1 H2)
    as (_ & _ & _ & H3 & _ & H4).
  split; [exact H1|]. split; [exact H2|]. split; [exact H3|].
  rewrite H4; [reflexivity|]. vm_compute. discriminate.
Defined.

(** C10 (as stated, refuted).  In the text of the two lines "@a{" and "@b}"
    the first entry is yielded by the second line, which starts with [@],
    while the running depth is 1; the second entry closes one brace, the
    depth returns to 0 and the depth check yields it. *)
Lemma later_entry_closed_by_depth :
  depth (seg_run seg_init ["@a{"]).2 = 1
  ∧ iter_bib_entries_trace ("@a{" +:+ NL +:+ "@b}")
    = [(AtRecordStart, "@a{"); (AtDepthZero, "@b}")].
Proof. split; vm_compute; reflexivity. Qed.

(** ** Title extractor *)

(** *** What the matcher does on the items of the patterns *)

Lemma rep_one (p : ascii → bool) (g : bool) (k : string → option Re.found) (s : string) :
  Re.rep p false g k 1 (Some 1%nat) s
  = match s with
    | String c s' => if p c then Re.push c g <$> k s' else None
    | EmptyString => None
    end.
Proof.
  destruct s as [|c s']; simpl; [done|].
  destruct (p c); simpl; [|done].
  destruct s' as [|c' s'']; simpl.
  - by destruct (k EmptyString).
  - rewrite andb_false_r. by destruct (k (String c' s'')).
Qed.

(** A greedy star gives nothing back when what follows refuses every
    character of its class: it takes the whole run. *)
Lemma rep_star_space (k : string → option Re.found) (s : string) :
  (∀ c s', PyStr.isspace c = true → k (String c s') = None) →
  snd <$> Re.rep PyStr.isspace false false k 0 None s = snd <$> k (PyStr.lstrip s).
Proof.
  intros Hk. induction s as [|c s' IH]; simpl.
  - by destruct (k EmptyString).
  - destruct (PyStr.isspace c) eqn:Hc; simpl.
    + destruct (Re.rep PyStr.isspace false false k 0 None s') as [r|] eqn:Hr; simpl.
      * rewrite <- IH. done.
      * rewrite Hk by done. rewrite <- IH. done.
    + by destruct (k (String c s')).
Qed.

(** An item that may match nothing, before a rest that always matches with
    an empty group, always matches with an empty group. *)
Lemma rep_optional_total (p : ascii → bool) (lz : bool)
    (k : string → option Re.found) (hi : option nat) (s : string) :
  (∀ s', ∃ w, k s' = Some (w, EmptyString)) →
  ∃ w, Re.rep p lz false k 0 hi s = Some (w, EmptyString).
Proof.
  intros Hk. revert hi. induction s as [|c s' IH]; intros hi.
  - destruct (Hk EmptyString) as [w Hw]. exists w.
    destruct lz; simpl; by rewrite Hw.
  - destruct lz; simpl.
    + destruct (Hk (String c s')) as [w Hw]. exists w. by rewrite Hw.
    + destruct (p c && Re.may_repeat hi).
      * destruct (IH (Nat.pred <$> hi)) as [w Hw]. rewrite Hw. simpl. by eexists.
      * destruct (Hk (String c s')) as [w Hw]. exists w. by rewrite Hw.
Qed.

(** The end of the title pattern, white space and an optional comma, matches
    everywhere. *)
Lemma title_tail_total (s : string) :
  ∃ w, Re.match_here [Re.star PyStr.isspace; Re.opt (Re.chr ","%char)] s
       = Some (w, EmptyString).
Proof.
  simpl. apply rep_optional_total. intros s'.
  apply rep_optional_total. intros s''. by eexists.
Qed.

(** The lazy group before a closing delimiter stops at the first one. *)
Lemma rep_lazy_until (k : string → option Re.found) (s : string) :
  (∀ s', ∃ w, k s' = Some (w, EmptyString)) →
  snd <$> Re.rep Re.any true true (Re.rep is_closer false false k 1 (Some 1%nat)) 0 None s
  = text_before is_closer s.
Proof.
  intros Hk. set (k1 := Re.rep is_closer false false k 1 (Some 1%nat)).
  assert (Hk1 : ∀ c s', k1 (String c s')
                        = if is_closer c then Re.push c false <$> k s' else None)
    by (intros; unfold k1; by rewrite rep_one).
  assert (Hk0 : k1 EmptyString = None) by (unfold k1; by rewrite rep_one).
  clearbody k1.
  induction s as [|c s' IH]; simpl; [by rewrite Hk0|].
  rewrite Hk1. destruct (is_closer c); simpl.
  - destruct (Hk s') as [w ->]. done.
  - rewrite <- IH.
    by destruct (Re.rep Re.any true true k1 0 None s').
Qed.

Lemma match_word_i (w : string) (pat : Re.pattern) (s : string) :
  snd <$> Re.match_here (Re.word_i w ++ pat) s
  = match strip_word_i w s with
    | Some s1 => snd <$> Re.match_here pat s1
    | None => None
    end.
Proof.
  revert s. induction w as [|a w IH]; intros s; [done|].
  simpl. rewrite rep_one. destruct s as [|b s']; [done|].
  unfold Re.chr_i at 1. destruct (bool_decide _); [|done].
  rewrite <- IH. by destruct (Re.match_here (Re.word_i w ++ pat) s').
Qed.

Lemma match_here_cons (i : Re.item) (pat : Re.pattern) (s : string) :
  Re.match_here (i :: pat) s
  = Re.rep (Re.cls i) (Re.lazy i) (Re.grp i) (Re.match_here pat) (Re.lo i) (Re.hi i) s.
Proof. done. Qed.

Lemma snd_push (c : ascii) (g : bool) (x : option Re.found) :
  snd <$> (Re.push c g <$> x)
  = if g then String c <$> (snd <$> x) else snd <$> x.
Proof. by destruct x, g. Qed.

Lemma rep_lazy_plus (k : string → option Re.found) (s : string) :
  Re.rep Re.any true true k 1 None s
  = match s with
    | String c s' => Re.push c true <$> Re.rep Re.any true true k 0 None s'
    | EmptyString => None
    end.
Proof. by destruct s. Qed.

Lemma space_not_equals (c : ascii) :
  PyStr.isspace c = true → Re.chr "="%char c = false.
Proof.
  intros Hc. unfold Re.chr. case_bool_decide; [subst c|done].
  by vm_compute in Hc.
Qed.

Lemma space_not_opener (c : ascii) : PyStr.isspace c = true → is_opener c = false.
Proof.
  intros Hc. unfold is_opener.
  repeat case_bool_decide; subst; try done; by vm_compute in Hc.
Qed.

(** *** The pattern and the title field *)

(** At any position, group 1 of the title pattern is the value of the title
    field that starts there, any closing delimiter ending the value. *)
Lemma match_title_at (s : string) :
  snd <$> Re.match_here TITLE_RE s = title_field_at closes_any s.
Proof.
  unfold TITLE_RE, title_field_at. rewrite match_word_i.
  destruct (strip_word_i "title" s) as [s1|]; [|done].
  rewrite match_here_cons. simpl Re.cls. simpl Re.lazy. simpl Re.grp.
  simpl Re.lo. simpl Re.hi.
  rewrite rep_star_space.
  2:{ intros c s' Hc. rewrite match_here_cons. simpl Re.cls. simpl Re.lazy.
      simpl Re.grp. simpl Re.lo. simpl Re.hi.
      rewrite rep_one. by rewrite (space_not_equals c Hc). }
  rewrite match_here_cons. simpl Re.cls. simpl Re.lazy. simpl Re.grp.
  simpl Re.lo. simpl Re.hi. rewrite rep_one.
  destruct (PyStr.lstrip s1) as [|e s2]; [done|].
  unfold Re.chr at 1. destruct (bool_decide (e = "="%char)); [|done].
  rewrite snd_push.
  rewrite match_here_cons. simpl Re.cls. simpl Re.lazy. simpl Re.grp.
  simpl Re.lo. simpl Re.hi.
  rewrite rep_star_space.
  2:{ intros c s' Hc. rewrite match_here_cons. simpl Re.cls. simpl Re.lazy.
      simpl Re.grp. simpl Re.lo. simpl Re.hi.
      rewrite rep_one. by rewrite (space_not_opener c Hc). }
  rewrite match_here_cons. simpl Re.cls. simpl Re.lazy. simpl Re.grp.
  simpl Re.lo. simpl Re.hi. rewrite rep_one.
  destruct (PyStr.lstrip s2) as [|o s2']; [done|].
  destruct (is_opener o); [|by destruct s2'].
  rewrite snd_push.
  rewrite match_here_cons. simpl Re.cls. simpl Re.lazy. simpl Re.grp.
  simpl Re.lo. simpl Re.hi.
  rewrite rep_lazy_plus. destruct s2' as [|c s3]; [done|].
  rewrite snd_push.
  change (Re.match_here [Re.one is_closer; Re.star PyStr.isspace; Re.opt (Re.chr ","%char)])
    with (Re.rep is_closer false false
            (Re.match_here [Re.star PyStr.isspace; Re.opt (Re.chr ","%char)])
            1 (Some 1%nat)).
  rewrite rep_lazy_until by apply title_tail_total.
  done.
Qed.

Lemma search_title (entry : string) :
  snd <$> Re.search TITLE_RE entry = title_field closes_any entry.
Proof.
  induction entry as [|c entry IH].
  - unfold Re.search, title_field. rewrite <- match_title_at.
    by destruct (Re.match_here TITLE_RE EmptyString).
  - cbn [Re.search title_field]. rewrite <- match_title_at.
    destruct (Re.match_here TITLE_RE (String c entry)); [done|].
    exact IH.
Qed.

(** *** Cleaning the value *)

Lemma replace_nl (s : string) : PyStr.replace NL " " s = nl_to_space s.
Proof.
  unfold PyStr.replace. induction s as [|c s' IH]; [done|].
  cbn [PyStr.replace_go nl_to_space]. unfold NL at 1. cbn [PyStr.startswith].
  rewrite andb_true_r.
  destruct (decide ("010"%char = c)) as [<-|Hne].
  - rewrite !bool_decide_eq_true_2 by done. cbn. by rewrite IH.
  - rewrite !bool_decide_eq_false_2 by done. by rewrite IH.
Qed.

(** The pattern for white space takes the whole run at the start of the
    text, when there is one. *)
Lemma rep_space_run (s : string) :
  ∃ w, Re.rep PyStr.isspace false false (λ _, Some (EmptyString, EmptyString)) 0 None s
       = Some (w, EmptyString)
       ∧ String.length w = run s.
Proof.
  induction s as [|c s' (w & Hw & Hlen)]; simpl; [by eexists|].
  destruct (PyStr.isspace c); simpl.
  - rewrite Hw. simpl. eexists. split; [done|]. simpl. by rewrite Hlen.
  - by eexists.
Qed.

Lemma match_spaces (s : string) :
  match s with
  | String c s' =>
      if PyStr.isspace c
      then ∃ w, Re.match_here SPACES_RE s = Some (w, EmptyString)
                ∧ String.length w = S (run s')
      else Re.match_here SPACES_RE s = None
  | EmptyString => Re.match_here SPACES_RE s = None
  end.
Proof.
  destruct s as [|c s']; [done|]. unfold SPACES_RE, Re.match_here, Re.plus.
  cbn [Re.cls Re.lazy Re.grp Re.lo Re.hi Re.rep Re.may_repeat Nat.pred fmap option_fmap option_map].
  destruct (PyStr.isspace c); [|done]. simpl.
  destruct (rep_space_run s') as (w & Hw & Hlen).
  change (Nat.pred <$> None) with (@None nat). rewrite Hw. simpl.
  eexists. split; [done|]. simpl. by rewrite Hlen.
Qed.

Lemma sub_spaces_go (s : string) :
  Re.sub_go SPACES_RE " " (run s) s = collapse true s
  ∧ Re.sub_go SPACES_RE " " 0 s = collapse false s.
Proof.
  induction s as [|c s' [IH1 IH0]]; [done|].
  pose proof (match_spaces (String c s')) as Hm. revert Hm.
  cbn [run collapse Re.sub_go]. destruct (PyStr.isspace c); intros Hm.
  - destruct Hm as (w & -> & Hlen). cbn [fst]. rewrite Hlen. cbn [Nat.pred].
    rewrite IH1. done.
  - rewrite Hm, IH0. done.
Qed.

Lemma sub_spaces (s : string) : Re.sub SPACES_RE " " s = collapse false s.
Proof. apply sub_spaces_go. Qed.

Lemma rstrip_word (c : ascii) (s : string) :
  PyStr.isspace c = false → PyStr.rstrip (String c s) = String c (PyStr.rstrip s).
Proof. intros Hc. simpl. destruct (PyStr.rstrip s); by rewrite ?Hc. Qed.

Lemma rstrip_space (c : ascii) (s : string) :
  PyStr.isspace c = true →
  PyStr.rstrip (String c s)
  = match PyStr.rstrip s with
    | EmptyString => EmptyString
    | r => String c r
    end.
Proof. intros Hc. simpl. destruct (PyStr.rstrip s); by rewrite ?Hc. Qed.

Lemma cons_line_not_nil (c : ascii) (l : list string) : PyStr.cons_line c l ≠ [].
Proof. by destruct l. Qed.

Lemma rstrip_empty_words (s : string) :
  PyStr.rstrip s = EmptyString ↔ words s = [].
Proof.
  induction s as [|c s IH]; [done|].
  destruct (PyStr.isspace c) eqn:Hc.
  - rewrite (rstrip_space c s Hc). cbn [words]. rewrite Hc, <- IH.
    by destruct (PyStr.rstrip s).
  - rewrite (rstrip_word c s Hc). cbn [words]. rewrite Hc.
    split; [done|]. destruct (starts_word s); [|done].
    intros H. by apply cons_line_not_nil in H.
Qed.

Lemma join_cons_line (c : ascii) (w : string) (l : list string) :
  PyStr.join " " (PyStr.cons_line c (w :: l)) = String c (PyStr.join " " (w :: l)).
Proof. by destruct l. Qed.

Lemma join_after_word (c : ascii) (w : string) (l : list string) :
  PyStr.join " " (String c EmptyString :: w :: l)
  = String c (String " " (PyStr.join " " (w :: l))).
Proof. done. Qed.

(** Trimming on the right and collapsing the runs, those at the start
    dropped, leaves the words joined by single spaces. *)
Lemma collapse_rstrip (s : string) :
  collapse true (PyStr.rstrip s) = PyStr.join " " (words s).
Proof.
  induction s as [|c s IH]; [done|].
  destruct (PyStr.isspace c) eqn:Hc.
  - rewrite (rstrip_space c s Hc). cbn [words]. rewrite Hc, <- IH.
    destruct (PyStr.rstrip s) as [|d r]; [done|].
    cbn [collapse]. by rewrite Hc.
  - rewrite (rstrip_word c s Hc). cbn [words collapse]. rewrite Hc. revert IH.
    destruct s as [|d s']; [done|]. cbn [starts_word].
    destruct (PyStr.isspace d) eqn:Hd; cbn [negb]; intros IH.
    + destruct (words (String d s')) as [|w l] eqn:Hw.
      * apply rstrip_empty_words in Hw. by rewrite Hw.
      * rewrite join_after_word, <- IH.
        assert (Hne : PyStr.rstrip (String d s') ≠ EmptyString).
        { rewrite rstrip_empty_words, Hw. done. }
        rewrite (rstrip_space d s' Hd) in *.
        destruct (PyStr.rstrip s') as [|e r]; [done|].
        cbn [collapse]. by rewrite Hd.
    + destruct (words (String d s')) as [|w l] eqn:Hw.
      * cbn [words] in Hw. rewrite Hd in Hw.
        destruct (starts_word s'); [by apply cons_line_not_nil in Hw|done].
      * rewrite join_cons_line, <- IH, (rstrip_word d s' Hd).
        cbn [collapse]. by rewrite Hd.
Qed.

Lemma collapse_at_word (s : string) :
  s = EmptyString ∨ starts_word s = true →
  collapse false (PyStr.rstrip s) = collapse true (PyStr.rstrip s).
Proof.
  intros [->|Hs]; [done|]. destruct s as [|c s]; [done|].
  cbn [starts_word] in Hs. apply negb_true_iff in Hs.
  rewrite (rstrip_word c s Hs). cbn [collapse]. by rewrite Hs.
Qed.

Lemma lstrip_at_word (s : string) :
  PyStr.lstrip s = EmptyString ∨ starts_word (PyStr.lstrip s) = true.
Proof.
  induction s as [|c s IH]; [by left|]. cbn [PyStr.lstrip].
  destruct (PyStr.isspace c) eqn:Hc; [done|].
  right. cbn [starts_word]. by rewrite Hc.
Qed.

Lemma words_lstrip (s : string) : words (PyStr.lstrip s) = words s.
Proof.
  induction s as [|c s IH]; [done|]. cbn [PyStr.lstrip words].
  destruct (PyStr.isspace c) eqn:Hc; [done|].
  cbn [words]. by rewrite Hc.
Qed.

Lemma isspace_nl_to_space (c : ascii) :
  PyStr.isspace (if bool_decide (c = "010"%char) then " "%char else c) = PyStr.isspace c.
Proof. case_bool_decide; by subst. Qed.

Lemma words_nl_to_space (s : string) : words (nl_to_space s) = words s.
Proof.
  induction s as [|c s IH]; [done|]. cbn [nl_to_space words].
  rewrite isspace_nl_to_space, IH.
  destruct (PyStr.isspace c) eqn:Hc; [done|].
  rewrite bool_decide_eq_false_2 by (intros ->; by vm_compute in Hc).
  assert (Hsw : starts_word (nl_to_space s) = starts_word s).
  { destruct s as [|d s']; [done|]. cbn [nl_to_space starts_word].
    by rewrite isspace_nl_to_space. }
  by rewrite Hsw.
Qed.

(** The value is cleaned to its words joined by single spaces. *)
Lemma clean_title_normalizes (v : string) : clean_title v = normalize_space v.
Proof.
  unfold clean_title, normalize_space, PyStr.strip.
  rewrite sub_spaces, replace_nl.
  rewrite collapse_at_word by apply lstrip_at_word.
  by rewrite collapse_rstrip, words_lstrip, words_nl_to_space.
Qed.

(** C5 (amended).  For every entry, the title extractor returns the value of
    the first title field of the entry, the word title being matched in any
    case, the value opened by a brace or a double quote and running, over
    line breaks too, up to the first closing brace or double quote after its
    first character, whichever of the two opened it; the value is returned
    with its white space trimmed at both ends and every run of white space
    inside, line breaks included, turned into one space.  The result is
    absent exactly when the entry has no such field. *)
Theorem extract_title_field (entry : string) :
  extract_title entry = normalize_space <$> title_field closes_any entry
  ∧ (extract_title entry = None ↔ title_field closes_any entry = None).
Proof.
  assert (Heq : extract_title entry = normalize_space <$> title_field closes_any entry).
  { unfold extract_title. rewrite <- search_title.
    destruct (Re.search TITLE_RE entry) as [m|]; [|done].
    simpl. by rewrite clean_title_normalizes. }
  split; [exact Heq|]. rewrite Heq.
  by destruct (title_field closes_any entry).
Qed.

(** C5 (as stated, refuted).  In this entry the title is written between
    double quotes and protects a word with braces.  The value delimited by
    the matching quotes is the whole title; the extractor stops at the
    closing brace inside it. *)
Lemma extract_title_stops_at_other_delimiter :
  let entry := "@article{k, title = " +:+ quoted "Towards {OWL} reasoning" +:+ "}" in
  normalize_space <$> title_field closes_matching entry = Some "Towards {OWL} reasoning"
  ∧ extract_title entry = Some "Towards {OWL"
  ∧ extract_title entry ≠ normalize_space <$> title_field closes_matching entry.
Proof. vm_compute. split; [done|]. split; [done|]. discriminate. Qed.

(** * Further properties of the script *)

(** ** Frequency aggregator *)

Lemma occurrences_app (k : string) (pubs1 pubs2 : list pub) :
  occurrences k (pubs1 ++ pubs2) = (occurrences k pubs1 + occurrences k pubs2)%nat.
Proof. unfold occurrences. by rewrite fmap_app, sum_list_with_app. Qed.

Lemma freq_get_occurrences (pubs : list pub) (k : string) :
  freq_get (aggregate_keyword_freq pubs) k = Z.of_nat (occurrences k pubs).
Proof.
  unfold freq_get. rewrite aggregate_occurrences. unfold entry_of_count.
  destruct (decide (occurrences k pubs = 0%nat)) as [->|]; done.
Qed.

(** X1.  The counts are additive: the count of a keyword over two lists of
    publications put end to end is the sum of its counts over each, so adding
    publications never lowers a count. *)
Theorem aggregate_additive (pubs1 pubs2 : list pub) (k : string) :
  freq_get (aggregate_keyword_freq (pubs1 ++ pubs2)) k
  = freq_get (aggregate_keyword_freq pubs1) k
    + freq_get (aggregate_keyword_freq pubs2) k
  ∧ freq_get (aggregate_keyword_freq pubs1) k
    ≤ freq_get (aggregate_keyword_freq (pubs1 ++ pubs2)) k.
Proof.
  rewrite !freq_get_occurrences, occurrences_app. lia.
Qed.

(** X2.  The frequency map does not depend on the order of the
    publications. *)
Theorem aggregate_permutation (pubs1 pubs2 : list pub) :
  pubs1 ≡ₚ pubs2 → aggregate_keyword_freq pubs1 = aggregate_keyword_freq pubs2.
Proof.
  intros Hp. apply map_eq. intros k. rewrite !aggregate_occurrences.
  unfold occurrences. by rewrite Hp.
Qed.

Lemma aggregate_permutation_witness :
  [Pub "a" ["Mapping"]; Pub "b" ["Ontology"; "Mapping"]]
    ≡ₚ [Pub "b" ["Ontology"; "Mapping"]; Pub "a" ["Mapping"]]
  ∧ aggregate_keyword_freq [Pub "a" ["Mapping"]; Pub "b" ["Ontology"; "Mapping"]]
    = aggregate_keyword_freq [Pub "b" ["Ontology"; "Mapping"]; Pub "a" ["Mapping"]].
Proof.
  assert (H : [Pub "a" ["Mapping"]; Pub "b" ["Ontology"; "Mapping"]]
                ≡ₚ [Pub "b" ["Ontology"; "Mapping"]; Pub "a" ["Mapping"]])
    by apply Permutation_swap.
  split; [exact H|]. exact (aggregate_permutation _ _ H).
Defined.

Lemma filter_eq_absent (k : string) (l : list string) :
  k ∉ l → filter (λ x, x = k) l = [].
Proof.
  induction l as [|x l IH]; [done|]. rewrite not_elem_of_cons. intros [Hne Hl].
  rewrite filter_cons, decide_False by done. by apply IH.
Qed.

Lemma occurrences_zero (pubs : list pub) (k : string) :
  occurrences k pubs = 0%nat ↔ ∀ p, p ∈ pubs → k ∉ keywords p.
Proof.
  split.
  - intros Hz p Hp Hk. pose proof (occurrences_pos pubs p k Hp Hk). lia.
  - intros Hno. unfold occurrences.
    induction pubs as [|p pubs IH]; [done|]. rewrite fmap_cons. simpl.
    rewrite IH by (intros q Hq; apply Hno; by apply list_elem_of_further).
    rewrite filter_eq_absent; [done|]. apply Hno, list_elem_of_here.
Qed.

Lemma occurrences_nonzero (pubs : list pub) (k : string) :
  occurrences k pubs ≠ 0%nat → ∃ p, k ∈ keywords p ∧ p ∈ pubs.
Proof.
  unfold occurrences. induction pubs as [|p pubs IH]; [done|].
  rewrite fmap_cons. simpl. intros Hnz.
  destruct (decide (k ∈ keywords p)) as [Hk|Hk].
  - exists p. split; [done|apply list_elem_of_here].
  - rewrite (filter_eq_absent k _ Hk) in Hnz. simpl in Hnz.
    destruct (IH Hnz) as (q & Hq & Hin). exists q. split; [done|].
    by apply list_elem_of_further.
Qed.

(** X3.  The keys of the frequency map are exactly the keywords that stand
    in some publication's list: the number of unique keywords of the summary
    line is the number of distinct keywords over all lists. *)
Theorem aggregate_keys (pubs : list pub) :
  dom (aggregate_keyword_freq pubs) = list_to_set (pubs ≫= keywords)
  ∧ size (aggregate_keyword_freq pubs) = length (remove_dups (pubs ≫= keywords)).
Proof.
  assert (Hdom : dom (aggregate_keyword_freq pubs)
                 = (list_to_set (pubs ≫= keywords) : gset string)).
  { apply set_eq. intros k.
    rewrite elem_of_dom, aggregate_occurrences, elem_of_list_to_set, list_elem_of_bind.
    unfold entry_of_count. destruct (decide (occurrences k pubs = 0%nat)) as [Hz|Hnz].
    - rewrite occurrences_zero in Hz. split; [by intros []|].
      intros (p & Hk & Hp). by destruct (Hz p Hp).
    - split; [intros _|by eauto]. by apply occurrences_nonzero. }
  split; [exact Hdom|].
  rewrite <- size_dom, Hdom.
  assert (Hset : (list_to_set (pubs ≫= keywords) : gset string)
                 = list_to_set (remove_dups (pubs ≫= keywords))).
  { apply set_eq. intros k. by rewrite !elem_of_list_to_set, elem_of_remove_dups. }
  rewrite Hset. apply size_list_to_set, NoDup_remove_dups.
Qed.

(** ** Entry segmenter *)

Lemma seg_run_app (st : seg) (lines1 lines2 : list string) :
  seg_run st (lines1 ++ lines2)
  = ((seg_run st lines1).1 ++ (seg_run (seg_run st lines1).2 lines2).1,
     (seg_run (seg_run st lines1).2 lines2).2).
Proof.
  revert st. induction lines1 as [|l ls IH]; intros st; simpl.
  - by destruct (seg_run st lines2).
  - destruct (seg_step st l) as [out st1]. rewrite IH.
    destruct (seg_run st1 ls) as [outs st2]. simpl.
    destruct (seg_run st2 lines2) as [outs' st3]. simpl.
    by rewrite app_assoc.
Qed.

(** Between two lines the segmenter is inside an entry exactly when it holds
    lines. *)
Lemma seg_step_inside (st : seg) (line : string) :
  inside st = nonempty (current st) →
  inside (seg_step st line).2 = nonempty (current (seg_step st line).2).
Proof.
  intros Hinv. unfold seg_step. destruct st as [cur d ins]. simpl in *. subst ins.
  destruct (starts_record line), cur as [|c cur]; simpl;
    try destruct (bool_decide _); simpl; try done; by destruct cur.
Qed.

Lemma seg_step_count (st : seg) (line : string) :
  inside st = nonempty (current st) →
  (length (seg_step st line).1
   + (if nonempty (current (seg_step st line).2) then 1 else 0)
   = (if nonempty (current st) then 1 else 0)
     + (if starts_record line then 1 else 0))%nat.
Proof.
  intros Hinv. unfold seg_step. destruct st as [cur d ins]. simpl in *. subst ins.
  destruct (starts_record line), cur as [|c cur]; simpl;
    try destruct (bool_decide _); simpl; try done; by destruct cur.
Qed.

Lemma seg_run_count (st : seg) (lines : list string) :
  inside st = nonempty (current st) →
  (length (seg_run st lines).1 + length (seg_finish (seg_run st lines).2)
   = (if nonempty (current st) then 1 else 0)
     + length (filter (λ x, starts_record x = true) lines))%nat.
Proof.
  revert st. induction lines as [|l ls IH]; intros st Hinv; simpl.
  - unfold seg_finish. destruct (nonempty (current st)); simpl; lia.
  - pose proof (seg_step_count st l Hinv) as Hc.
    pose proof (seg_step_inside st l Hinv) as Hi.
    destruct (seg_step st l) as [out st1]. simpl in *.
    specialize (IH st1 Hi). destruct (seg_run st1 ls) as [outs st2]. simpl in *.
    rewrite length_app, filter_cons.
    destruct (starts_record l); simpl; lia.
Qed.

(** X4.  The segmenter yields one entry for each line that starts with [@],
    after white space, no more and no fewer, whatever the braces are. *)
Theorem entries_count (bib_text : string) :
  length (iter_bib_entries bib_text)
  = length (filter (λ x, starts_record x = true) (PyStr.splitlines bib_text)).
Proof.
  unfold iter_bib_entries, iter_bib_entries_trace, seg_trace.
  rewrite length_fmap.
  pose proof (seg_run_count seg_init (PyStr.splitlines bib_text) eq_refl) as Hc.
  destruct (seg_run seg_init (PyStr.splitlines bib_text)) as [out st].
  simpl in Hc. by rewrite length_app.
Qed.

Lemma entry_of_lines_intro (before more after : list string) (first : string) :
  starts_record first = true →
  Forall (λ x, starts_record x = false) more →
  entry_of_lines (before ++ (first :: more) ++ after) (PyStr.join NL (first :: more)).
Proof. intros ? ?. by exists before, first, more, after. Qed.

Lemma seg_step_entries (hist : list string) (st : seg) (line : string)
    (rest : list string) :
  seg_inv hist st →
  seg_inv (hist ++ [line]) (seg_step st line).2
  ∧ ∀ e, e ∈ (seg_step st line).1.*2 → entry_of_lines (hist ++ line :: rest) e.
Proof.
  intros (Hin & Hheld & h & ->). destruct st as [cur d ins]. simpl in *. subst ins.
  unfold seg_step. simpl.
  destruct (starts_record line) eqn:Hst.
  - (* a line starting a record *)
    assert (Hnew : entry_of_lines ((h ++ cur) ++ line :: rest) (PyStr.join NL [line])).
    { apply (entry_of_lines_intro (h ++ cur) [] rest line Hst). constructor. }
    assert (Hold : cur ≠ [] →
              entry_of_lines ((h ++ cur) ++ line :: rest) (PyStr.join NL cur)).
    { destruct cur as [|c cur']; [done|]. intros _. destruct Hheld as [Hc Hcur].
      rewrite <- app_assoc.
      apply (entry_of_lines_intro h cur' (line :: rest) c Hc Hcur). }
    destruct cur as [|c cur']; simpl; destruct (bool_decide _); simpl.
    + split; [|by intros e ->%list_elem_of_singleton].
      split; [done|]. split; [done|]. exists (h ++ [line]). by rewrite !app_nil_r.
    + split; [|by intros e ?%not_elem_of_nil].
      split; [done|]. split; [by split|]. exists (h ++ []). done.
    + split.
      * split; [done|]. split; [done|]. exists ((h ++ c :: cur') ++ [line]).
        by rewrite app_nil_r.
      * intros e [->| ->%list_elem_of_singleton]%elem_of_cons; [by apply Hold|done].
    + split.
      * split; [done|]. split; [by split|]. by exists (h ++ c :: cur').
      * intros e ->%list_elem_of_singleton. by apply Hold.
  - (* any other line *)
    destruct cur as [|c cur']; simpl.
    + split; [|by intros e ?%not_elem_of_nil].
      split; [done|]. split; [done|]. exists (h ++ [line]). by rewrite !app_nil_r.
    + destruct Hheld as [Hc Hcur].
      assert (Hcur' : Forall (λ x, starts_record x = false) (cur' ++ [line])).
      { apply Forall_app. split; [done|]. by constructor. }
      destruct (bool_decide _); simpl.
      * split.
        -- split; [done|]. split; [done|]. exists ((h ++ c :: cur') ++ [line]).
           by rewrite app_nil_r.
        -- intros e ->%list_elem_of_singleton.
           change (PyStr.join NL (c :: cur' ++ [line]))
             with (PyStr.join NL (c :: (cur' ++ [line]))).
           replace ((h ++ c :: cur') ++ line :: rest)
             with (h ++ (c :: (cur' ++ [line])) ++ rest)
             by (by rewrite <- !app_assoc; simpl; rewrite <- app_assoc).
           by apply entry_of_lines_intro.
      * split; [|by intros e ?%not_elem_of_nil].
        split; [by destruct cur'|]. split; [by split|].
        exists h. by rewrite <- app_assoc.
Qed.

Lemma seg_run_entries (lines hist : list string) (st : seg) :
  seg_inv hist st →
  ∀ e, e ∈ (seg_run st lines).1.*2 ++ (seg_finish (seg_run st lines).2).*2 →
       entry_of_lines (hist ++ lines) e.
Proof.
  revert hist st. induction lines as [|l ls IH]; intros hist st Hinv e; simpl.
  - destruct Hinv as (_ & Hheld & h & ->). unfold seg_finish.
    destruct (current st) as [|c cur]; simpl; [by intros ?%not_elem_of_nil|].
    intros ->%list_elem_of_singleton. destruct Hheld as [Hc Hcur].
    rewrite app_nil_r.
    replace (h ++ c :: cur) with (h ++ (c :: cur) ++ []) by (by rewrite app_nil_r).
    by apply entry_of_lines_intro.
  - destruct (seg_step_entries hist st l ls Hinv) as [Hinv1 Hout].
    specialize (IH (hist ++ [l]) _ Hinv1 e).
    destruct (seg_step st l) as [out st1]. simpl in *.
    destruct (seg_run st1 ls) as [outs st2]. simpl in *.
    rewrite fmap_app, <- app_assoc, elem_of_app. intros [He|He].
    + by apply Hout.
    + rewrite <- app_assoc in IH. by apply IH.
Qed.

(** X5.  Every entry yielded is a run of consecutive lines of the text,
    joined by line feeds: it starts with a line that starts with [@], after
    white space, and runs over lines that do not.  Lines before the first
    line starting with [@] are in no entry, and the segmenter never yields an
    empty entry. *)
Theorem entries_are_record_runs (bib_text entry : string) :
  entry ∈ iter_bib_entries bib_text →
  entry_of_lines (PyStr.splitlines bib_text) entry.
Proof.
  unfold iter_bib_entries, iter_bib_entries_trace, seg_trace. intros He.
  apply (seg_run_entries (PyStr.splitlines bib_text) [] seg_init).
  - split; [done|]. split; [done|]. by exists [].
  - destruct (seg_run seg_init (PyStr.splitlines bib_text)) as [out st].
    simpl. by rewrite <- fmap_app.
Qed.

Lemma entries_are_record_runs_witness :
  "@b{y}" ∈ iter_bib_entries ("junk" +:+ NL +:+ "@b{y}" +:+ NL +:+ "tail")
  ∧ entry_of_lines (PyStr.splitlines ("junk" +:+ NL +:+ "@b{y}" +:+ NL +:+ "tail")) "@b{y}".
Proof.
  assert (H : "@b{y}" ∈ iter_bib_entries ("junk" +:+ NL +:+ "@b{y}" +:+ NL +:+ "tail"))
    by (vm_compute; apply list_elem_of_here).
  split; [exact H|]. exact (entries_are_record_runs _ _ H).
Defined.

(** Inside an entry at positive depth, lines that do not start a record and
    close the braces on the last of them: the entry is yielded whole by the
    depth check and the depth is back at 0. *)
Lemma seg_run_closing (cur : list string) (d : Z) (lines : list string) :
  cur ≠ [] → 0 < d →
  forallb (λ x, negb (starts_record x)) lines →
  closes_at_end d lines →
  seg_run (Seg cur d true) lines
  = ([(AtDepthZero, PyStr.join NL (cur ++ lines))], Seg [] 0 false).
Proof.
  revert cur d. induction lines as [|l ls IH]; intros cur d Hcur Hd Hns Hcl; [done|].
  cbn [forallb] in Hns. apply andb_prop_elim in Hns as [Hl Hls].
  apply negb_prop_elim, Is_true_false_1 in Hl.
  cbn [closes_at_end] in Hcl. cbn [seg_run].
  destruct ls as [|l' ls'].
  - apply bool_decide_unpack in Hcl. unfold seg_step. simpl. rewrite Hl. simpl.
    rewrite Hcl. rewrite bool_decide_eq_true_2 by lia.
    destruct cur; [done|]. simpl. done.
  - apply andb_prop_elim in Hcl as [Hpos Hcl]. apply bool_decide_unpack in Hpos.
    rewrite (seg_step_positive (Seg cur d true) l eq_refl Hpos). rewrite Hl. simpl current.
    simpl depth. rewrite (IH (cur ++ [l]) _); [|by destruct cur|done|done|done].
    simpl. by rewrite <- app_assoc.
Qed.

Lemma seg_step_open (d : Z) (ins : bool) (line : string) :
  starts_record line = true →
  seg_step (Seg [] d ins) line
  = if bool_decide (d + net_braces line ≤ 0)
    then ([(AtDepthZero, line)], Seg [] (d + net_braces line) false)
    else ([], Seg [line] (d + net_braces line) true).
Proof. intros Hl. unfold seg_step. simpl. rewrite Hl. simpl. by destruct (bool_decide _). Qed.

(** A well-formed record met outside an entry at depth 0 is yielded whole by
    the depth check, and the segmenter is back outside at depth 0. *)
Lemma seg_run_block (block : list string) :
  record_block block →
  seg_run (Seg [] 0 false) block
  = ([(AtDepthZero, PyStr.join NL block)], Seg [] 0 false).
Proof.
  destruct block as [|l ls]; [done|]. unfold record_block.
  intros [[Hl Hls]%andb_prop_elim Hcl]%andb_prop_elim.
  apply Is_true_true_1 in Hl. cbn [closes_at_end] in Hcl. cbn [seg_run].
  rewrite (seg_step_open 0 false l Hl).
  destruct ls as [|l' ls'].
  - apply bool_decide_unpack in Hcl. rewrite Hcl. done.
  - apply andb_prop_elim in Hcl as [Hpos Hcl]. apply bool_decide_unpack in Hpos.
    rewrite bool_decide_eq_false_2 by lia.
    rewrite (seg_run_closing [l] _ (l' :: ls')); done.
Qed.

(** X6.  A bibliography made of well-formed records is split into exactly
    its records.  Let the text consist of lines that do not start with [@],
    then of records, each one a line starting with [@] followed by lines that
    do not, with braces that balance on its last line and not before, and
    each followed by any lines that do not start with [@].  Then the entries
    are the records, in order, each yielded by the depth check; the lines
    between records are in no entry. *)
Theorem well_formed_records_segmented (preamble : list string)
    (records : list (list string * list string)) :
  forallb (λ x, negb (starts_record x)) preamble →
  forallb (λ r, record_block r.1 && forallb (λ x, negb (starts_record x)) r.2) records →
  seg_trace (preamble ++ concat ((λ r, r.1 ++ r.2) <$> records))
  = (λ r, (AtDepthZero, PyStr.join NL r.1)) <$> records.
Proof.
  intros Hpre Hrecs.
  assert (Hout : ∀ ls, forallb (λ x, negb (starts_record x)) ls →
            seg_run (Seg [] 0 false) ls = ([], Seg [] 0 false)).
  { intros ls Hls. apply seg_run_outside; [done|].
    apply Forall_forall. intros x Hx.
    apply forallb_True in Hls.
    rewrite Forall_forall in Hls. specialize (Hls x Hx).
    by apply negb_prop_elim, Is_true_false_1 in Hls. }
  assert (Hrun : seg_run (Seg [] 0 false) (concat ((λ r, r.1 ++ r.2) <$> records))
                 = ((λ r, (AtDepthZero, PyStr.join NL r.1)) <$> records, Seg [] 0 false)).
  { induction records as [|[block junk] records IH]; [done|].
    cbn [forallb] in Hrecs.
    apply andb_prop_elim in Hrecs as [[Hb Hj]%andb_prop_elim Hrecs].
    rewrite !fmap_cons. cbn [concat fst snd].
    rewrite <- app_assoc, seg_run_app, (seg_run_block block Hb). cbn [fst snd].
    rewrite seg_run_app, (Hout junk Hj). cbn [fst snd].
    rewrite (IH Hrecs). done. }
  unfold seg_trace. rewrite seg_run_app. fold seg_init in Hout, Hrun.
  rewrite (Hout preamble Hpre). cbn [fst snd]. rewrite Hrun. simpl.
  by rewrite app_nil_r.
Qed.

Lemma well_formed_records_segmented_witness :
  forallb (λ x, negb (starts_record x)) ["% my papers"]
  ∧ forallb (λ r, record_block r.1 && forallb (λ x, negb (starts_record x)) r.2)
      [(["@article{a1,"; "  title={Semantic Web},"; "}"], [""]);
       (["@misc{m1, year=2020}"], [])]
  ∧ seg_trace (["% my papers"] ++ concat ((λ r, r.1 ++ r.2) <$>
      [(["@article{a1,"; "  title={Semantic Web},"; "}"], [""]);
       (["@misc{m1, year=2020}"], [])]))
    = (λ r, (AtDepthZero, PyStr.join NL r.1)) <$>
      [(["@article{a1,"; "  title={Semantic Web},"; "}"], [""]);
       (["@misc{m1, year=2020}"], [])].
Proof.
  assert (H1 : forallb (λ x, negb (starts_record x)) ["% my papers"])
    by (vm_compute; exact I).
  assert (H2 : forallb (λ r, record_block r.1 && forallb (λ x, negb (starts_record x)) r.2)
      [(["@article{a1,"; "  title={Semantic Web},"; "}"], [""]);
       (["@misc{m1, year=2020}"], [])])
    by (vm_compute; exact I).
  split; [exact H1|]. split; [exact H2|].
  exact (well_formed_records_segmented _ _ H1 H2).
Defined.

(** ** Title extractor *)

Lemma string_app_assoc (a b c : string) : (a +:+ b) +:+ c = a +:+ (b +:+ c).
Proof.
  induction a as [|x a IH]; [done|].
  change (String x ((a +:+ b) +:+ c) = String x (a +:+ (b +:+ c))). by rewrite IH.
Qed.

Lemma string_app_cons (x : ascii) (a b : string) :
  String x a +:+ b = String x (a +:+ b).
Proof. done. Qed.

Lemma string_app_nil (a : string) : EmptyString +:+ a = a.
Proof. done. Qed.

Lemma string_app_nil_r (a : string) : a +:+ EmptyString = a.
Proof.
  induction a as [|x a IH]; [done|].
  change (String x (a +:+ EmptyString) = String x a). by rewrite IH.
Qed.

(** A word followed by something that does not start a word. *)
Lemma words_word_then (c : ascii) (w s : string) :
  all_chars (λ x, negb (PyStr.isspace x)) (String c w) →
  starts_word s = false →
  words (String c w +:+ s) = String c w :: words s.
Proof.
  revert c. induction w as [|c' w IH]; intros c Hw Hs.
  - cbn [all_chars] in Hw. apply andb_prop_elim in Hw as [Hc _].
    apply negb_prop_elim, Is_true_false_1 in Hc.
    rewrite string_app_cons, string_app_nil. cbn [words]. by rewrite Hc, Hs.
  - cbn [all_chars] in Hw. apply andb_prop_elim in Hw as [Hc Hw].
    pose proof Hw as Hw'. cbn [all_chars] in Hw'.
    apply andb_prop_elim in Hw' as [Hc' _].
    apply negb_prop_elim, Is_true_false_1 in Hc.
    rewrite string_app_cons. cbn [words]. rewrite Hc.
    rewrite IH by done. rewrite string_app_cons. cbn [starts_word].
    by destruct (PyStr.isspace c').
Qed.

Lemma words_are_words (s : string) :
  Forall (λ w, w ≠ EmptyString ∧ all_chars (λ x, negb (PyStr.isspace x)) w) (words s).
Proof.
  induction s as [|c s IH]; [constructor|]. cbn [words].
  destruct (PyStr.isspace c) eqn:Hc; [done|].
  destruct (starts_word s).
  - destruct (words s) as [|w ws]; simpl.
    + constructor; [|done]. split; [done|]. cbn. by rewrite Hc.
    + apply Forall_cons in IH as [[_ Hw] Hws]. constructor; [|done].
      split; [done|]. cbn [all_chars]. by rewrite Hc.
  - constructor; [|done]. split; [done|]. cbn. by rewrite Hc.
Qed.

Lemma words_join (ws : list string) :
  Forall (λ w, w ≠ EmptyString ∧ all_chars (λ x, negb (PyStr.isspace x)) w) ws →
  words (PyStr.join " " ws) = ws.
Proof.
  induction 1 as [|w ws [Hne Hw] Hws IH]; [done|].
  destruct w as [|c w]; [done|].
  destruct ws as [|w' ws'].
  - cbn [PyStr.join].
    replace (String c w) with (String c w +:+ EmptyString) at 1
      by apply string_app_nil_r.
    by rewrite words_word_then.
  - change (PyStr.join " " (String c w :: w' :: ws'))
      with (String c w +:+ String " " (PyStr.join " " (w' :: ws'))).
    rewrite words_word_then by done.
    change (words (String " " (PyStr.join " " (w' :: ws'))))
      with (words (PyStr.join " " (w' :: ws'))).
    by rewrite IH.
Qed.

Lemma normalize_space_idem (s : string) :
  normalize_space (normalize_space s) = normalize_space s.
Proof. unfold normalize_space. by rewrite words_join by apply words_are_words. Qed.

Lemma join_words_only_spaces (ws : list string) :
  Forall (λ w, w ≠ EmptyString ∧ all_chars (λ x, negb (PyStr.isspace x)) w) ws →
  all_chars (λ x, negb (PyStr.isspace x) || bool_decide (x = " "%char))
    (PyStr.join " " ws).
Proof.
  assert (Happ : ∀ a b f, all_chars f a → all_chars f b → all_chars f (a +:+ b)).
  { intros a b f. induction a as [|x a IH]; [done|]. cbn [all_chars].
    intros [Hx Ha]%andb_prop_elim Hb. rewrite string_app_cons. cbn [all_chars].
    apply andb_prop_intro. split; [done|]. by apply IH. }
  assert (Hweak : ∀ a, all_chars (λ x, negb (PyStr.isspace x)) a →
            all_chars (λ x, negb (PyStr.isspace x) || bool_decide (x = " "%char)) a).
  { induction a as [|x a IH]; [done|]. cbn [all_chars].
    intros [Hx Ha]%andb_prop_elim. apply andb_prop_intro. split; [|by apply IH].
    by destruct (negb (PyStr.isspace x)). }
  induction 1 as [|w ws [Hne Hw] Hws IH]; [done|].
  destruct ws as [|w' ws']; [by apply Hweak|].
  change (PyStr.join " " (w :: w' :: ws'))
    with (w +:+ String " " (PyStr.join " " (w' :: ws'))).
  apply Happ; [by apply Hweak|]. cbn [all_chars]. apply andb_prop_intro. split; [done|].
  exact IH.
Qed.

(** X7.  A title that is extracted is clean: the only white space characters
    in it are spaces (no line break, no tab), its words are separated by
    exactly one space with none before the first word or after the last, so
    that cleaning it once more changes nothing. *)
Theorem extracted_title_clean (entry t : string) :
  extract_title entry = Some t →
  all_chars (λ x, negb (PyStr.isspace x) || bool_decide (x = " "%char)) t
  ∧ t = PyStr.join " " (words t)
  ∧ clean_title t = t.
Proof.
  unfold extract_title. destruct (Re.search TITLE_RE entry) as [m|]; [|done].
  intros [= <-]. rewrite !clean_title_normalizes.
  split; [apply join_words_only_spaces, words_are_words|].
  split; [symmetry|]; apply normalize_space_idem.
Qed.

Lemma extracted_title_clean_witness :
  extract_title ("@a{k, title = {  Data" +:+ NL +:+ "   Sharing }}") = Some "Data Sharing"
  ∧ clean_title "Data Sharing" = "Data Sharing".
Proof.
  assert (H : extract_title ("@a{k, title = {  Data" +:+ NL +:+ "   Sharing }}")
              = Some "Data Sharing") by (vm_compute; reflexivity).
  split; [exact H|]. exact (proj2 (proj2 (extracted_title_clean _ _ H))).
Defined.

(** The word title, letter by letter. *)
Lemma strip_title_unfold (s : string) :
  strip_word_i "title" s
  = match s with
    | String a (String b (String c (String d (String e r)))) =>
        if bool_decide (PyStr.lower_char a = "t"%char) then
          if bool_decide (PyStr.lower_char b = "i"%char) then
            if bool_decide (PyStr.lower_char c = "t"%char) then
              if bool_decide (PyStr.lower_char d = "l"%char) then
                if bool_decide (PyStr.lower_char e = "e"%char) then Some r else None
              else None
            else None
          else None
        else None
    | _ => None
    end.
Proof.
  destruct s as [|a [|b [|c [|d [|e r]]]]]; cbn [strip_word_i];
    change (PyStr.lower_char "t"%char) with "t"%char;
    change (PyStr.lower_char "i"%char) with "i"%char;
    change (PyStr.lower_char "l"%char) with "l"%char;
    change (PyStr.lower_char "e"%char) with "e"%char;
    try done; repeat (destruct (bool_decide _); try done).
Qed.

Lemma lower_title_name (name : string) :
  PyStr.lower name = "title" →
  ∃ a b c d e,
    name = String a (String b (String c (String d (String e EmptyString))))
    ∧ PyStr.lower_char a = "t"%char ∧ PyStr.lower_char b = "i"%char
    ∧ PyStr.lower_char c = "t"%char ∧ PyStr.lower_char d = "l"%char
    ∧ PyStr.lower_char e = "e"%char.
Proof.
  destruct name as [|a [|b [|c [|d [|e [|f r]]]]]]; cbn [PyStr.lower]; try done.
  intros [= Ha Hb Hc Hd He]. by exists a, b, c, d, e.
Qed.

(** The word title cannot start in the text before a field name and end
    inside the name: no end of the word is a start of it. *)
Lemma title_no_straddle (b name rest : string) :
  PyStr.lower name = "title" →
  b ≠ EmptyString →
  strip_word_i "title" b = None →
  strip_word_i "title" (b +:+ name +:+ rest) = None.
Proof.
  intros (n0 & n1 & n2 & n3 & n4 & -> & H0 & H1 & H2 & H3 & H4)%lower_title_name Hb.
  rewrite !strip_title_unfold.
  destruct b as [|x1 [|x2 [|x3 [|x4 [|x5 b']]]]]; [done|..];
    rewrite ?string_app_cons, ?string_app_nil; intros Hnone;
    repeat case_bool_decide; try done; congruence.
Qed.

Lemma title_field_skip (before name rest : string) (closes : ascii → ascii → bool) :
  PyStr.lower name = "title" →
  contains_i "title" before = false →
  title_field closes (before +:+ name +:+ rest) = title_field closes (name +:+ rest).
Proof.
  intros Hname. induction before as [|x b IH]; [done|].
  cbn [contains_i]. intros [Hhere Hb]%orb_false_elim.
  apply bool_decide_eq_false_1 in Hhere.
  assert (Hnone : strip_word_i "title" (String x b) = None).
  { destruct (strip_word_i "title" (String x b)); [|done]. destruct Hhere. by eexists. }
  pose proof (title_no_straddle (String x b) name rest Hname ltac:(done) Hnone) as Hs.
  rewrite string_app_cons in *. cbn [title_field]. unfold title_field_at at 1.
  rewrite Hs. by apply IH.
Qed.

Lemma strip_title_name (name rest : string) :
  PyStr.lower name = "title" → strip_word_i "title" (name +:+ rest) = Some rest.
Proof.
  intros (n0 & n1 & n2 & n3 & n4 & -> & H0 & H1 & H2 & H3 & H4)%lower_title_name.
  rewrite strip_title_unfold, !string_app_cons, string_app_nil.
  by rewrite !bool_decide_eq_true_2.
Qed.

Lemma lstrip_spaces_then (ws : string) (c : ascii) (rest : string) :
  all_chars PyStr.isspace ws → PyStr.isspace c = false →
  PyStr.lstrip (ws +:+ String c rest) = String c rest.
Proof.
  intros Hws Hc. induction ws as [|x ws IH].
  - rewrite string_app_nil. cbn [PyStr.lstrip]. by rewrite Hc.
  - cbn [all_chars] in Hws. apply andb_prop_elim in Hws as [Hx Hws].
    rewrite string_app_cons. cbn [PyStr.lstrip].
    apply Is_true_true_1 in Hx. rewrite Hx. by apply IH.
Qed.

Lemma text_before_closer (v : string) (c : ascii) (rest : string) :
  all_chars (λ x, negb (is_closer x)) v → is_closer c = true →
  text_before is_closer (v +:+ String c rest) = Some v.
Proof.
  intros Hv Hc. induction v as [|x v IH].
  - rewrite string_app_nil. cbn [text_before]. by rewrite Hc.
  - cbn [all_chars] in Hv. apply andb_prop_elim in Hv as [Hx Hv].
    apply negb_prop_elim, Is_true_false_1 in Hx.
    rewrite string_app_cons. cbn [text_before]. rewrite Hx, IH by done. done.
Qed.

Lemma opener_not_space (o : ascii) : is_opener o = true → PyStr.isspace o = false.
Proof.
  intros Ho. destruct (PyStr.isspace o) eqn:Hs; [|done].
  by rewrite (space_not_opener o Hs) in Ho.
Qed.

Lemma title_field_found (closes : ascii → ascii → bool) (s v : string) :
  title_field_at closes s = Some v → title_field closes s = Some v.
Proof. intros Hat. destruct s; cbn [title_field]; by rewrite Hat. Qed.

(** X8.  Reading back a title field.  Let the entry hold, after a text in
    which the word title does not occur in any case, the word title in any
    case, white space, an equals sign, white space, an opening brace or
    double quote, a value whose characters after the first are neither a
    closing brace nor a double quote, and a closing brace or double quote.
    Then the title extracted is that value, cleaned.  The text before the
    word may end with letters: the value of a field named booktitle or
    subtitle is taken as the title when it comes first. *)
Theorem title_field_read (before name ws1 ws2 value after : string)
    (o v0 c : ascii) :
  contains_i "title" before = false →
  PyStr.lower name = "title" →
  all_chars PyStr.isspace ws1 →
  all_chars PyStr.isspace ws2 →
  is_opener o = true →
  all_chars (λ x, negb (is_closer x)) value →
  is_closer c = true →
  extract_title
    (before +:+ name +:+ ws1 +:+ "=" +:+ ws2
     +:+ String o (String v0 value +:+ String c after))
  = Some (normalize_space (String v0 value)).
Proof.
  intros Hbefore Hname Hws1 Hws2 Ho Hvalue Hc.
  unfold extract_title. pose proof (search_title
    (before +:+ name +:+ ws1 +:+ "=" +:+ ws2
     +:+ String o (String v0 value +:+ String c after))) as Hsearch.
  rewrite (title_field_skip before name _ closes_any Hname Hbefore) in Hsearch.
  rewrite (title_field_found closes_any _ (String v0 value)) in Hsearch.
  - destruct (Re.search TITLE_RE _) as [m|]; [|done].
    simpl in Hsearch. injection Hsearch as ->. by rewrite clean_title_normalizes.
  - unfold title_field_at. rewrite (strip_title_name name _ Hname).
    change ("=" +:+ ws2 +:+ String o (String v0 value +:+ String c after))
      with (String "="%char (ws2 +:+ String o (String v0 value +:+ String c after))).
    rewrite (lstrip_spaces_then ws1 "=" _ Hws1) by done.
    rewrite bool_decide_eq_true_2 by done.
    rewrite (lstrip_spaces_then ws2 o _ Hws2) by (by apply opener_not_space).
    rewrite string_app_cons, Ho. unfold closes_any.
    change (λ c0 : ascii, is_closer c0) with is_closer.
    by rewrite (text_before_closer value c after Hvalue Hc).
Qed.

Lemma title_field_read_witness :
  extract_title
    ("@inproceedings{k, book" +:+ "Title" +:+ " " +:+ "=" +:+ ""
     +:+ String "{" (String "I" "SWC 2020" +:+ String "}" ", title={Ontology Mapping}}"))
  = Some (normalize_space (String "I" "SWC 2020")).
Proof.
  apply (title_field_read "@inproceedings{k, book" "Title" " " "" "SWC 2020"
           ", title={Ontology Mapping}}" "{" "I" "}");
    first [reflexivity | vm_compute; exact I].
Defined.

Lemma length_iter_bib_entries (bib_text : string) :
  length (iter_bib_entries bib_text)
  = length (filter (λ x, starts_record x = true) (PyStr.splitlines bib_text)).
Proof.
  unfold iter_bib_entries, iter_bib_entries_trace, seg_trace.
  rewrite length_fmap.
  pose proof (seg_run_count seg_init (PyStr.splitlines bib_text) eq_refl) as Hc.
  destruct (seg_run seg_init (PyStr.splitlines bib_text)) as [out st].
  simpl in Hc. by rewrite length_app.
Qed.

(** ** Publications *)

Lemma build_titles (o : set_order) (titles : list (option string)) :
  pub_title <$> build_publication_keywords o titles
  = omap (λ t, if truthy t then t else None) titles.
Proof.
  induction titles as [|[[|c t]|] titles IH]; simpl;
    [done|exact IH|f_equal; exact IH|exact IH].
Qed.

Lemma length_omap_le {A B} (f : A → option B) (l : list A) :
  (length (omap f l) ≤ length l)%nat.
Proof.
  induction l as [|x l IH]; [done|]. cbn [omap list_omap length].
  destruct (f x); cbn [length]; [apply le_n_S|apply le_S]; exact IH.
Qed.

Lemma omap_fmap {A B C} (g : A → B) (f : B → option C) (l : list A) :
  omap f (g <$> l) = omap (λ x, f (g x)) l.
Proof.
  induction l as [|x l IH]; [done|]. cbn [fmap list_fmap omap list_omap].
  destruct (f (g x)); [f_equal|]; exact IH.
Qed.

Lemma filter_keywords_titles (freq : gmap string Z) (T : Z) (pubs : list pub) :
  pub_title <$> (filter_keywords freq T <$> pubs) = pub_title <$> pubs.
Proof. rewrite <- list_fmap_compose. by apply list_fmap_ext. Qed.

(** X9.  The publications of the document are the entries whose extracted
    title is not empty, in the order of the text, each under its title:
    an entry without title and an entry whose title is blank are both
    left out, whatever the threshold.  So the count written is at most the
    number of lines of the text that start with [@]. *)
Theorem publications_are_titled_entries (o : set_order) (bib_path text : string)
    (min_freq : Z) :
  pub_title <$> publications (main o bib_path text min_freq).1
  = omap (λ e, if truthy (extract_title e) then extract_title e else None)
      (iter_bib_entries text)
  ∧ totalPublications (main o bib_path text min_freq).1
    ≤ Z.of_nat (length (filter (λ x, starts_record x = true) (PyStr.splitlines text))).
Proof.
  unfold main, main_on_entries. cbn [fst publications totalPublications].
  set (pubs := build_publication_keywords o _).
  set (freq := aggregate_keyword_freq pubs).
  assert (Ht : pub_title <$> (if bool_decide (1 < min_freq)
                              then filter_keywords freq min_freq <$> pubs else pubs)
               = omap (λ e, if truthy (extract_title e) then extract_title e else None)
                   (iter_bib_entries text)).
  { assert (Hp : pub_title <$> pubs
                 = omap (λ e, if truthy (extract_title e) then extract_title e else None)
                     (iter_bib_entries text)).
    { unfold pubs. by rewrite build_titles, omap_fmap. }
    destruct (bool_decide _); [by rewrite filter_keywords_titles|done]. }
  split; [exact Ht|].
  rewrite <- length_iter_bib_entries.
  apply inj_le. rewrite <- (length_fmap pub_title), Ht. apply length_omap_le.
Qed.

(** ** Keyword extractor: phrases *)

Lemma startswith_app (p q s : string) :
  PyStr.startswith (p +:+ q) s = true → PyStr.startswith p s = true.
Proof.
  revert s. induction p as [|a p IH]; intros s; [done|].
  rewrite string_app_cons. destruct s as [|b s]; [done|]. cbn [PyStr.startswith].
  intros [Hab Hs]%andb_true_iff. rewrite Hab. simpl. by apply IH.
Qed.

(** A title that contains a phrase contains every start of the phrase. *)
Lemma contains_app (p q s : string) :
  PyStr.contains (p +:+ q) s = true → PyStr.contains p s = true.
Proof.
  induction s as [|c s IH]; cbn [PyStr.contains].
  - rewrite !orb_false_r. apply startswith_app.
  - intros [H|H]%orb_true_iff; apply orb_true_iff.
    + left. by apply (startswith_app p q).
    + right. by apply IH.
Qed.

(** X10.  Every phrase keyword of a title is the entry of the normalization
    map for a phrase of the phrase list that occurs in the title, and every
    such entry is a phrase keyword: the title-cased fallback of the lookup is
    never used. *)
Theorem phrase_keywords_from_table (lower_title k : string) :
  k ∈ phrase_scan lower_title
  ↔ ∃ p, p ∈ PHRASES ∧ PyStr.contains p lower_title = true ∧ NORM !! p = Some k.
Proof.
  assert (Htable : Forall (λ p, is_Some (NORM !! p)) PHRASES).
  { apply (bool_decide_unpack _). vm_compute. exact I. }
  rewrite Forall_forall in Htable.
  rewrite phrase_scan_order, list_elem_of_fmap. split.
  - intros (p & -> & [Hc Hp]%list_elem_of_filter). exists p.
    split; [done|]. split; [by apply Is_true_true_1|].
    unfold norm_get. by destruct (Htable p Hp) as [v ->].
  - intros (p & Hp & Hc & Hk). exists p. split.
    + unfold norm_get. by rewrite Hk.
    + apply list_elem_of_filter. split; [by apply Is_true_true_2|done].
Qed.

Lemma NoDup_scan_cons {A B} (f : A → B) (P : A → Prop) `{∀ x, Decision (P x)}
    (x : A) (l : list A) :
  NoDup (f <$> filter P (x :: l))
  ↔ (P x → ∀ y, y ∈ l → P y → f y ≠ f x) ∧ NoDup (f <$> filter P l).
Proof.
  rewrite filter_cons. destruct (decide (P x)) as [Hx|Hx].
  - rewrite fmap_cons, NoDup_cons, list_elem_of_fmap. split.
    + intros [Hnin Hnd]. split; [|done]. intros _ y Hy Hpy Heq.
      apply Hnin. exists y. split; [done|]. by apply list_elem_of_filter.
    + intros [Hall Hnd]. split; [|done].
      intros (y & Heq & [Hpy Hy]%list_elem_of_filter). by apply (Hall Hx y).
  - split; [intros Hnd; by split|by intros [_ ?]].
Qed.

Ltac other_label Heq := exfalso; vm_compute in Heq; discriminate Heq.

(** The phrase keywords of a title repeat a keyword exactly when two phrases
    with the same entry in the normalization map both occur in it. *)
Lemma phrase_scan_NoDup (lt : string) :
  NoDup (phrase_scan lt)
  ↔ ¬ (PyStr.contains "knowledge graph" lt ∧ PyStr.contains "knowledge graphs" lt)
    ∧ ¬ (PyStr.contains "clinical guideline" lt ∧ PyStr.contains "clinical guidelines" lt)
    ∧ ¬ (PyStr.contains "ontology" lt ∧ PyStr.contains "ontologies" lt)
    ∧ ¬ (PyStr.contains "mapping" lt ∧ PyStr.contains "mappings" lt)
    ∧ ¬ (PyStr.contains "recommendation" lt ∧ PyStr.contains "recommendations" lt)
    ∧ ¬ (PyStr.contains "e-health" lt ∧ PyStr.contains "ehealth" lt).
Proof.
  rewrite phrase_scan_order. unfold PHRASES. rewrite !NoDup_scan_cons.
  split.
  - intros (H1 & _ & H3 & _ & _ & _ & _ & _ & _ & _ & H11 & _ & H13 & _ & H15 & _ & H17 & _).
    repeat split; intros [Ha Hb].
    + apply (H1 Ha "knowledge graphs"); [apply list_elem_of_here|done|done].
    + apply (H3 Ha "clinical guidelines"); [apply list_elem_of_here|done|done].
    + apply (H11 Ha "ontologies"); [apply list_elem_of_here|done|done].
    + apply (H13 Ha "mappings"); [apply list_elem_of_here|done|done].
    + apply (H15 Ha "recommendations"); [apply list_elem_of_here|done|done].
    + apply (H17 Ha "ehealth"); [apply list_elem_of_here|done|done].
  - intros (N1 & N2 & N3 & N4 & N5 & N6).
    repeat split; try apply NoDup_nil_2;
      intros Hx y Hy Hpy Heq;
      repeat (apply elem_of_cons in Hy as [->|Hy];
              [first [other_label Heq | tauto]|]);
      by apply not_elem_of_nil in Hy.
Qed.

Lemma contains_plural (p lt : string) :
  PyStr.contains (p +:+ "s") lt → PyStr.contains p lt.
Proof.
  intros H%Is_true_true_1. apply Is_true_true_2. by apply (contains_app p "s").
Qed.

(** X11.  The keyword list of a publication repeats a keyword exactly when
    its lower-cased title contains one of the plurals "knowledge graphs",
    "clinical guidelines", "mappings", "recommendations" (each contains its
    singular, which has the same entry in the normalization map), or both
    "ontology" and "ontologies", or both "e-health" and "ehealth".  In every
    other case the list has no repetition. *)
Theorem keywords_repeat_iff (o : set_order) (t : string) :
  let lt := strip_accents (PyStr.lower t) in
  NoDup (keywords (publication o t))
  ↔ ¬ PyStr.contains "knowledge graphs" lt
    ∧ ¬ PyStr.contains "clinical guidelines" lt
    ∧ ¬ PyStr.contains "mappings" lt
    ∧ ¬ PyStr.contains "recommendations" lt
    ∧ ¬ (PyStr.contains "ontology" lt ∧ PyStr.contains "ontologies" lt)
    ∧ ¬ (PyStr.contains "e-health" lt ∧ PyStr.contains "ehealth" lt).
Proof.
  intros lt. unfold publication. fold lt. cbn [keywords].
  rewrite NoDup_app, phrase_scan_NoDup.
  pose proof (contains_plural "knowledge graph" lt) as P1.
  pose proof (contains_plural "clinical guideline" lt) as P2.
  pose proof (contains_plural "mapping" lt) as P3.
  pose proof (contains_plural "recommendation" lt) as P4.
  change ("knowledge graph" +:+ "s") with "knowledge graphs" in P1.
  change ("clinical guideline" +:+ "s") with "clinical guidelines" in P2.
  change ("mapping" +:+ "s") with "mappings" in P3.
  change ("recommendation" +:+ "s") with "recommendations" in P4.
  split.
  - intros [(N1 & N2 & N3 & N4 & N5 & N6) _]. tauto.
  - intros (N1 & N2 & N3 & N4 & N5 & N6). split; [tauto|]. split.
    + intros k Hk Htok.
      by apply (tokens_avoid_phrases o t (phrase_scan lt) k k Htok Hk).
    + apply NoDup_sorted.
Qed.

(** ** Keyword extractor: tokens *)

(** A greedy repetition at the end of a pattern takes the whole run of its
    class, and fails when the run is too short. *)
Lemma rep_greedy_end (p : ascii → bool) (lo : nat) (s : string) :
  Re.rep p false false (λ _, Some (EmptyString, EmptyString)) lo None s
  = if bool_decide (lo ≤ String.length (take_class p s))%nat
    then Some (take_class p s, EmptyString) else None.
Proof.
  revert lo. induction s as [|c s IH]; intros lo.
  - cbn. destruct lo; [done|]. rewrite bool_decide_eq_false_2 by lia. done.
  - cbn [Re.rep take_class Re.may_repeat]. destruct (p c); cbn [andb].
    + change (Nat.pred <$> None) with (@None nat). rewrite IH.
      cbn [String.length].
      destruct (decide (Nat.pred lo ≤ String.length (take_class p s))%nat).
      * rewrite !bool_decide_eq_true_2 by lia. done.
      * rewrite !bool_decide_eq_false_2 by lia. cbn. by destruct lo; [lia|].
    + cbn [String.length]. destruct lo; [done|].
      rewrite bool_decide_eq_false_2 by lia. done.
Qed.

Lemma match_word (s : string) :
  Re.match_here WORD_RE s
  = match s with
    | String c s' =>
        if PyStr.isalpha c && bool_decide (2 ≤ String.length (take_class is_word_char s'))%nat
        then Some (String c (take_class is_word_char s'), EmptyString)
        else None
    | EmptyString => None
    end.
Proof.
  unfold WORD_RE. rewrite match_here_cons. unfold Re.one, Re.at_least.
  cbn [Re.cls Re.lazy Re.grp Re.lo Re.hi]. rewrite rep_one.
  destruct s as [|c s']; [done|]. destruct (PyStr.isalpha c); [|done].
  cbn [Re.match_here Re.cls Re.lazy Re.grp Re.lo Re.hi].
  change (λ s, Re.rep (λ c0, PyStr.isalpha c0 || bool_decide (c0 = "-"%char)) false false
                 (λ _, Some (EmptyString, EmptyString)) 2 None s)
    with (Re.rep is_word_char false false (λ _, Some (EmptyString, EmptyString)) 2 None).
  rewrite rep_greedy_end. cbn [andb]. by destruct (bool_decide _).
Qed.

Lemma all_chars_take_class (f : ascii → bool) (s : string) :
  all_chars f (take_class f s).
Proof.
  induction s as [|c s IH]; [done|]. cbn [take_class].
  destruct (f c) eqn:Hc; [|done]. cbn [all_chars]. by rewrite Hc.
Qed.

Lemma startswith_take_class (f : ascii → bool) (s : string) :
  PyStr.startswith (take_class f s) s = true.
Proof.
  induction s as [|c s IH]; [done|]. cbn [take_class].
  destruct (f c); [|done]. cbn [PyStr.startswith].
  by rewrite bool_decide_eq_true_2, IH.
Qed.

Lemma contains_startswith (w s : string) :
  PyStr.startswith w s = true → PyStr.contains w s = true.
Proof. intros H. destruct s; cbn [PyStr.contains]; by rewrite H. Qed.

Lemma contains_tail (w : string) (c : ascii) (s : string) :
  PyStr.contains w s = true → PyStr.contains w (String c s) = true.
Proof. intros H. cbn [PyStr.contains]. rewrite H. apply orb_true_r. Qed.

Lemma findall_go_words (skip : nat) (s w : string) :
  w ∈ Re.findall_go WORD_RE skip s →
  word_shaped w ∧ PyStr.contains w s = true.
Proof.
  revert skip. induction s as [|c s IH]; intros skip.
  - destruct skip; cbn [Re.findall_go]; rewrite ?match_word; by intros ?%not_elem_of_nil.
  - destruct skip as [|n]; cbn [Re.findall_go].
    + rewrite match_word.
      destruct (PyStr.isalpha c && bool_decide _) eqn:Hm.
      * apply andb_true_iff in Hm as [Hc Hlen]. cbn [fst].
        intros [->|Hw]%elem_of_cons.
        -- split.
           ++ cbn [word_shaped]. rewrite Hc, Hlen. cbn [andb].
              rewrite andb_true_r. apply all_chars_take_class.
           ++ apply contains_startswith. cbn [PyStr.startswith].
              by rewrite bool_decide_eq_true_2, startswith_take_class.
        -- destruct (IH _ Hw) as [? ?]. split; [done|]. by apply contains_tail.
      * intros Hw. destruct (IH _ Hw) as [? ?]. split; [done|]. by apply contains_tail.
    + intros Hw. destruct (IH _ Hw) as [? ?]. split; [done|]. by apply contains_tail.
Qed.

(** X12.  Every word that the tokenizer finds stands in the text searched
    and is made of a letter followed by at least two letters or hyphens:
    digits, punctuation and words of one or two characters never become
    tokens. *)
Theorem words_found_shape (s w : string) :
  w ∈ Re.findall WORD_RE s →
  PyStr.contains w s = true
  ∧ (3 ≤ String.length w)%nat
  ∧ all_chars is_word_char w
  ∧ (∃ c w', w = String c w' ∧ PyStr.isalpha c = true).
Proof.
  intros [Hshape Hin]%findall_go_words. split; [done|].
  destruct w as [|c w']; [done|]. cbn [word_shaped] in Hshape.
  apply andb_prop_elim in Hshape as [[Hc Hw]%andb_prop_elim Hlen].
  apply bool_decide_unpack in Hlen. apply Is_true_true_1 in Hc.
  split; [cbn [String.length]; lia|]. split; [|by eauto].
  cbn [all_chars]. apply andb_prop_intro. split; [|done].
  unfold is_word_char. by rewrite Hc.
Qed.

Lemma words_found_shape_witness :
  "e-health" ∈ Re.findall WORD_RE "an e-health app, v2"
  ∧ (3 ≤ String.length "e-health")%nat.
Proof.
  assert (H : "e-health" ∈ Re.findall WORD_RE "an e-health app, v2")
    by (vm_compute; apply list_elem_of_here).
  split; [exact H|]. exact (proj1 (proj2 (words_found_shape _ _ H))).
Defined.

(** *** Erasing the phrases *)

Lemma startswith_replace (q p s : string) :
  all_chars (λ c, negb (bool_decide (c = " "%char))) p →
  PyStr.startswith p (PyStr.replace_go q " " 0 s) = true →
  PyStr.startswith p s = true.
Proof.
  revert p. induction s as [|c s IH]; intros p Hp; [done|].
  destruct p as [|a p]; [done|].
  cbn [all_chars] in Hp. apply andb_prop_elim in Hp as [Ha Hp].
  apply negb_prop_elim in Ha. rewrite bool_decide_spec in Ha.
  cbn [PyStr.replace_go]. destruct (PyStr.startswith q (String c s)).
  - change (" " +:+ ?x) with (String " "%char x). cbn [PyStr.startswith].
    intros [Heq _]%andb_true_iff. by apply bool_decide_eq_true_1 in Heq.
  - cbn [PyStr.startswith]. intros [Heq Hrest]%andb_true_iff.
    rewrite Heq. cbn [andb]. by apply IH.
Qed.

(** Replacing a phrase by a space brings no occurrence of a text without
    space into being. *)
Lemma contains_replace_go (q p : string) (k : nat) (s : string) :
  p ≠ EmptyString →
  all_chars (λ c, negb (bool_decide (c = " "%char))) p →
  PyStr.contains p (PyStr.replace_go q " " k s) = true →
  PyStr.contains p s = true.
Proof.
  intros Hne Hp. revert k. induction s as [|c s IH]; intros k.
  - by destruct p.
  - destruct k as [|n]; cbn [PyStr.replace_go];
      [|intros H; apply contains_tail; by apply (IH n)].
    destruct (PyStr.startswith q (String c s)) eqn:Hq.
    + change (" " +:+ ?x) with (String " "%char x). intros H.
      cbn [PyStr.contains] in H. apply orb_true_iff in H as [H|H].
      * destruct p as [|a p]; [done|]. cbn [all_chars] in Hp.
        apply andb_prop_elim in Hp as [Ha _]. apply negb_prop_elim in Ha.
        rewrite bool_decide_spec in Ha. cbn [PyStr.startswith] in H.
        apply andb_true_iff in H as [Heq _]. by apply bool_decide_eq_true_1 in Heq.
      * apply contains_tail. by apply (IH _ H).
    + intros H. cbn [PyStr.contains] in H. apply orb_true_iff in H as [H|H].
      * apply contains_startswith. apply (startswith_replace q p); [done|].
        cbn [PyStr.replace_go]. by rewrite Hq.
      * apply contains_tail. by apply (IH _ H).
Qed.

(** Once a phrase without space is replaced, it occurs no more. *)
Lemma contains_erased (p : string) (k : nat) (s : string) :
  p ≠ EmptyString →
  all_chars (λ c, negb (bool_decide (c = " "%char))) p →
  PyStr.contains p (PyStr.replace_go p " " k s) = false.
Proof.
  intros Hne Hp. revert k. induction s as [|c s IH]; intros k.
  - by destruct p.
  - destruct k as [|n]; cbn [PyStr.replace_go]; [|apply IH].
    assert (Hsp : ∀ x, PyStr.startswith p (String " "%char x) = false).
    { intros x. destruct p as [|a p]; [done|]. cbn [all_chars] in Hp.
      apply andb_prop_elim in Hp as [Ha _]. apply negb_prop_elim in Ha.
      rewrite bool_decide_spec in Ha. cbn [PyStr.startswith].
      by rewrite bool_decide_eq_false_2. }
    destruct (PyStr.startswith p (String c s)) eqn:Hq.
    + change (" " +:+ ?x) with (String " "%char x). cbn [PyStr.contains].
      by rewrite Hsp, IH.
    + cbn [PyStr.contains]. rewrite IH, orb_false_r.
      destruct (PyStr.startswith p (String c (PyStr.replace_go p " " 0 s))) eqn:Hs; [|done].
      rewrite <- Hq. symmetry. apply (startswith_replace p p); [done|].
      cbn [PyStr.replace_go]. by rewrite Hq.
Qed.

Lemma fold_replace_keeps_absent (p : string) (ps : list string) (s : string) :
  p ≠ EmptyString →
  all_chars (λ c, negb (bool_decide (c = " "%char))) p →
  PyStr.contains p s = false →
  PyStr.contains p (fold_left (λ lower q, PyStr.replace q " " lower) ps s) = false.
Proof.
  intros Hne Hp. revert s. induction ps as [|q ps IH]; intros s Hs; [done|].
  cbn [fold_left]. apply IH.
  destruct (PyStr.contains p (PyStr.replace q " " s)) eqn:Hc; [|done].
  rewrite <- Hs. symmetry. by apply (contains_replace_go q p 0 s).
Qed.

Lemma fold_replace_erases (p : string) (ps : list string) (s : string) :
  p ≠ EmptyString →
  all_chars (λ c, negb (bool_decide (c = " "%char))) p →
  p ∈ ps →
  PyStr.contains p (fold_left (λ lower q, PyStr.replace q " " lower) ps s) = false.
Proof.
  intros Hne Hp Hin. revert s. induction Hin as [p ps|p q ps Hin IH]; intros s.
  - cbn [fold_left]. apply fold_replace_keeps_absent; [done..|].
    by apply contains_erased.
  - cbn [fold_left]. apply IH; done.
Qed.

(** No phrase without space is left in the remainder of a title. *)
Lemma remainder_erased (title p : string) :
  p ∈ PHRASES → p ≠ EmptyString →
  all_chars (λ c, negb (bool_decide (c = " "%char))) p →
  PyStr.contains p (remainder title) = false.
Proof. intros Hin Hne Hp. unfold remainder. by apply fold_replace_erases. Qed.

(** *** The remainder is lower-case *)

Lemma lower_char_not_upper (c : ascii) : PyStr.isupper (PyStr.lower_char c) = false.
Proof. by destruct c as [[] [] [] [] [] [] [] []]. Qed.

Lemma lower_upper_char (c : ascii) :
  PyStr.lower_char (PyStr.upper_char c) = PyStr.lower_char c.
Proof. by destruct c as [[] [] [] [] [] [] [] []]. Qed.

Lemma lower_lower (s : string) : PyStr.lower (PyStr.lower s) = PyStr.lower s.
Proof.
  induction s as [|c s IH]; [done|]. cbn [PyStr.lower]. rewrite IH. f_equal.
  unfold PyStr.lower_char at 1. by rewrite lower_char_not_upper.
Qed.

Lemma lower_capitalize (w : string) :
  PyStr.lower (PyStr.capitalize w) = PyStr.lower w.
Proof.
  destruct w as [|c w]; [done|]. cbn [PyStr.capitalize PyStr.lower].
  by rewrite lower_upper_char, lower_lower.
Qed.

Lemma all_chars_lower (s : string) :
  all_chars (λ c, negb (PyStr.isupper c)) (PyStr.lower s).
Proof.
  induction s as [|c s IH]; [done|]. cbn [PyStr.lower all_chars].
  by rewrite lower_char_not_upper.
Qed.

Lemma lower_fixed (w : string) :
  all_chars (λ c, negb (PyStr.isupper c)) w → PyStr.lower w = w.
Proof.
  induction w as [|c w IH]; [done|]. cbn [all_chars PyStr.lower].
  intros [Hc Hw]%andb_prop_elim. apply negb_prop_elim, Is_true_false_1 in Hc.
  rewrite IH by done. unfold PyStr.lower_char. by rewrite Hc.
Qed.

Lemma strip_accents_ascii (s : string) : strip_accents s = s.
Proof.
  unfold strip_accents, nfkd. induction s as [|c s IH]; [done|].
  cbn [keep]. by rewrite IH.
Qed.

Lemma all_chars_app (f : ascii → bool) (a b : string) :
  all_chars f a → all_chars f b → all_chars f (a +:+ b).
Proof.
  induction a as [|x a IH]; [done|]. cbn [all_chars].
  intros [Hx Ha]%andb_prop_elim Hb. rewrite string_app_cons. cbn [all_chars].
  apply andb_prop_intro. split; [done|]. by apply IH.
Qed.

Lemma all_chars_replace_go (f : ascii → bool) (q : string) (k : nat) (s : string) :
  f " "%char = true → all_chars f s → all_chars f (PyStr.replace_go q " " k s).
Proof.
  intros Hsp. revert k. induction s as [|c s IH]; intros k; [done|].
  cbn [all_chars]. intros [Hc Hs]%andb_prop_elim.
  destruct k as [|n]; cbn [PyStr.replace_go]; [|by apply IH].
  destruct (PyStr.startswith q (String c s)).
  - change (" " +:+ ?x) with (String " "%char x). cbn [all_chars]. rewrite Hsp.
    by apply IH.
  - cbn [all_chars]. apply andb_prop_intro. split; [done|]. by apply IH.
Qed.

Lemma all_chars_remainder (title : string) :
  all_chars (λ c, negb (PyStr.isupper c)) (remainder title).
Proof.
  unfold remainder. rewrite strip_accents_ascii.
  generalize (all_chars_lower title). generalize (PyStr.lower title).
  induction PHRASES as [|q ps IH]; intros s Hs; [done|].
  cbn [fold_left]. apply IH. by apply all_chars_replace_go.
Qed.

Lemma all_chars_startswith (f : ascii → bool) (w s : string) :
  PyStr.startswith w s = true → all_chars f s → all_chars f w.
Proof.
  revert s. induction w as [|a w IH]; intros s; [done|].
  destruct s as [|b s]; [done|]. cbn [PyStr.startswith all_chars].
  intros [Hab Hws]%andb_true_iff [Hb Hs]%andb_prop_elim.
  apply bool_decide_eq_true_1 in Hab as ->.
  apply andb_prop_intro. split; [done|]. by apply (IH s).
Qed.

Lemma all_chars_contains (f : ascii → bool) (w s : string) :
  PyStr.contains w s = true → all_chars f s → all_chars f w.
Proof.
  induction s as [|c s IH]; cbn [PyStr.contains].
  - rewrite orb_false_r. by apply all_chars_startswith.
  - intros [H|H]%orb_true_iff Hs.
    + by apply (all_chars_startswith f w (String c s)).
    + cbn [all_chars] in Hs. apply andb_prop_elim in Hs as [_ Hs]. by apply IH.
Qed.

(** *** The tokens of a title *)

Ltac absurd_word Hshape Hcont :=
  first
    [ by vm_compute in Hshape
    | rewrite remainder_erased in Hcont;
      [ discriminate Hcont
      | apply (bool_decide_unpack _); vm_compute; exact I
      | done
      | vm_compute; exact I ] ].

(** A word found in the remainder is no key of the normalization map: the
    keys of one word are phrases, which are erased, and the other keys hold a
    space. *)
Lemma word_not_normalized (title w : string) :
  word_shaped w → PyStr.contains w (remainder title) = true → NORM !! w = None.
Proof.
  intros Hshape Hcont. unfold NORM. apply not_elem_of_list_to_map_1.
  cbn [fmap list_fmap fst]. intros Hin.
  repeat (apply elem_of_cons in Hin as [->|Hin]; [absurd_word Hshape Hcont|]).
  by apply not_elem_of_nil in Hin.
Qed.

(** A word found in the remainder is, capitalized, no phrase keyword in
    another case. *)
Lemma word_not_phrase (title w lt : string) :
  word_shaped w → PyStr.contains w (remainder title) = true →
  PyStr.lower (PyStr.capitalize w) ∉ PyStr.lower <$> phrase_scan lt.
Proof.
  intros Hshape Hcont.
  rewrite lower_capitalize, lower_fixed
    by (apply (all_chars_contains _ w (remainder title) Hcont), all_chars_remainder).
  rewrite phrase_scan_order. intros (u & Hw & Hu)%list_elem_of_fmap.
  apply list_elem_of_fmap in Hu as (p & -> & [_ Hp]%list_elem_of_filter).
  unfold PHRASES in Hp.
  repeat (apply elem_of_cons in Hp as [->|Hp];
          [vm_compute in Hw; subst w; absurd_word Hshape Hcont|]).
  by apply not_elem_of_nil in Hp.
Qed.

Lemma token_step_word (title lt w : string) (tokens : gset string) :
  word_shaped w → PyStr.contains w (remainder title) = true →
  token_step (phrase_scan lt) tokens w
  = if decide ((w ∉ STOPWORDS) ∧ (4 ≤ String.length w)%nat)
    then {[PyStr.capitalize w]} ∪ tokens else tokens.
Proof.
  intros Hshape Hcont. unfold token_step, norm_get.
  rewrite (word_not_normalized title w Hshape Hcont). cbn [default].
  rewrite (bool_decide_eq_false_2 _ (word_not_phrase title w lt Hshape Hcont)).
  generalize STOPWORDS. intros stop.
  destruct (decide (w ∈ stop)) as [Hin|Hnin].
  - rewrite (bool_decide_eq_true_2 _ Hin).
    destruct (decide _) as [[Hn _]|_]; [by destruct Hn|done].
  - rewrite (bool_decide_eq_false_2 _ Hnin).
    destruct (decide (String.length w < 4)%nat) as [Hlt|Hge].
    + rewrite (bool_decide_eq_true_2 _ Hlt).
      destruct (decide _) as [[_ Hn]|_]; [lia|done].
    + rewrite (bool_decide_eq_false_2 _ Hge).
      destruct (decide _) as [_|Hn]; [done|]. destruct Hn. split; [done|lia].
Qed.

Lemma token_fold_words (title lt : string) (ws : list string) (tokens : gset string) :
  Forall (λ w, word_shaped w ∧ PyStr.contains w (remainder title) = true) ws →
  fold_left (token_step (phrase_scan lt)) ws tokens
  = list_to_set
      (PyStr.capitalize
         <$> filter (λ w, (w ∉ STOPWORDS) ∧ (4 ≤ String.length w)%nat) ws)
    ∪ tokens.
Proof.
  intros Hws. revert tokens.
  induction Hws as [|w ws [Hshape Hcont] Hws IH]; intros tokens.
  - cbn [fold_left]. rewrite filter_nil, fmap_nil, list_to_set_nil.
    by rewrite (left_id_L ∅ (∪)).
  - cbn [fold_left]. rewrite IH. clear IH.
    rewrite (token_step_word title lt w tokens Hshape Hcont), filter_cons.
    generalize STOPWORDS. intros stop.
    destruct (decide ((w ∉ stop) ∧ (4 ≤ String.length w)%nat)); [|done].
    rewrite fmap_cons, list_to_set_cons.
    rewrite (assoc_L (∪)). f_equal. apply (comm_L (∪)).
Qed.

Lemma all_chars_fold_replace (f : ascii → bool) (ps : list string) (s : string) :
  f " "%char = true → all_chars f s →
  all_chars f (fold_left (λ lower q, PyStr.replace q " " lower) ps s).
Proof.
  intros Hsp. revert s. induction ps as [|q ps IH]; intros s Hs; [done|].
  cbn [fold_left]. apply IH. by apply all_chars_replace_go.
Qed.

(** When the title, lower-cased and without accents, holds no upper-case
    letter, a word found in the remainder is in lower case and is the lower
    case of no phrase keyword. *)
Lemma word_kept (title w lt : string) :
  all_chars (λ c, negb (PyStr.isupper c)) (strip_accents (PyStr.lower title)) →
  word_shaped w → PyStr.contains w (remainder title) = true →
  PyStr.lower w ∉ PyStr.lower <$> phrase_scan lt.
Proof.
  intros Hlow Hshape Hcont.
  assert (Hrem : all_chars (λ c, negb (PyStr.isupper c)) (remainder title))
    by (unfold remainder; by apply all_chars_fold_replace).
  rewrite (lower_fixed w (all_chars_contains _ w (remainder title) Hcont Hrem)).
  clear Hrem Hlow.
  rewrite phrase_scan_order. intros (u & Hw & Hu)%list_elem_of_fmap.
  apply list_elem_of_fmap in Hu as (p & -> & [_ Hp]%list_elem_of_filter).
  unfold PHRASES in Hp.
  repeat (apply elem_of_cons in Hp as [->|Hp];
          [vm_compute in Hw; subst w; absurd_word Hshape Hcont|]).
  by apply not_elem_of_nil in Hp.
Qed.

Lemma token_step_found (title w : string) (used : list string) (tokens : gset string) :
  word_shaped w → PyStr.contains w (remainder title) = true →
  token_step used tokens w
  = if decide ((w ∉ STOPWORDS) ∧ (4 ≤ String.length w)%nat
               ∧ (PyStr.lower w ∉ PyStr.lower <$> used))
    then {[PyStr.capitalize w]} ∪ tokens else tokens.
Proof.
  intros Hshape Hcont. unfold token_step, norm_get.
  rewrite (word_not_normalized title w Hshape Hcont). cbn [default].
  rewrite lower_capitalize.
  generalize STOPWORDS. intros stop.
  destruct (decide (w ∈ stop)) as [Hin|Hnin].
  - rewrite (bool_decide_eq_true_2 _ Hin).
    destruct (decide _) as [[Hn _]|_]; [by destruct Hn|done].
  - rewrite (bool_decide_eq_false_2 _ Hnin).
    destruct (decide (String.length w < 4)%nat) as [Hlt|Hge].
    + rewrite (bool_decide_eq_true_2 _ Hlt).
      destruct (decide _) as [(_ & Hn & _)|_]; [lia|done].
    + rewrite (bool_decide_eq_false_2 _ Hge).
      destruct (decide (PyStr.lower w ∈ PyStr.lower <$> used)) as [Hu|Hu].
      * rewrite (bool_decide_eq_true_2 _ Hu).
        destruct (decide _) as [(_ & _ & Hn)|_]; [by destruct Hn|done].
      * rewrite (bool_decide_eq_false_2 _ Hu).
        destruct (decide _) as [_|Hn]; [done|]. destruct Hn.
        split; [done|]. split; [lia|done].
Qed.

Lemma token_fold_found (title : string) (used ws : list string) (tokens : gset string) :
  Forall (λ w, word_shaped w ∧ PyStr.contains w (remainder title) = true) ws →
  fold_left (token_step used) ws tokens
  = list_to_set
      (PyStr.capitalize
         <$> filter (λ w, (w ∉ STOPWORDS) ∧ (4 ≤ String.length w)%nat
                          ∧ (PyStr.lower w ∉ PyStr.lower <$> used)) ws)
    ∪ tokens.
Proof.
  intros Hws. revert tokens.
  induction Hws as [|w ws [Hshape Hcont] Hws IH]; intros tokens.
  - cbn [fold_left]. rewrite filter_nil, fmap_nil, list_to_set_nil.
    by rewrite (left_id_L ∅ (∪)).
  - cbn [fold_left]. rewrite IH. clear IH.
    rewrite (token_step_found title w used tokens Hshape Hcont), filter_cons.
    generalize STOPWORDS. intros stop.
    destruct (decide ((w ∉ stop) ∧ (4 ≤ String.length w)%nat
                      ∧ (PyStr.lower w ∉ PyStr.lower <$> used))); [|done].
    rewrite fmap_cons, list_to_set_cons.
    rewrite (assoc_L (∪)). f_equal. apply (comm_L (∪)).
Qed.

Lemma filter_ext_in {A} (P Q : A → Prop) `{∀ x, Decision (P x)} `{∀ x, Decision (Q x)}
    (l : list A) :
  (∀ x, x ∈ l → P x ↔ Q x) → filter P l = filter Q l.
Proof.
  induction l as [|x l IH]; [done|]. intros Hext. rewrite !filter_cons.
  rewrite IH by (intros y Hy; apply Hext; by apply list_elem_of_further).
  pose proof (Hext x (list_elem_of_here x l)) as Hx.
  destruct (decide (P x)), (decide (Q x)); tauto.
Qed.

(** X13.  The token keywords of a title, for any list of phrase keywords in
    use, are the words found in the remainder of the title that are no stop
    words, have at least four characters and are not, in lower case, the
    lower case of a phrase keyword in use, each capitalized, sorted and
    without repetition: the lookup of a word in the normalization map never
    finds a key, because the keys of one word are phrases, which are erased
    from the remainder before the words are searched.  When the title,
    lower-cased and without accents, holds no upper-case letter, the test
    against the phrase keywords of the title drops no word either. *)
Theorem tokens_are_capitalized_words (o : set_order) (t : string) :
  (∀ used,
     tokenize_remainder o t used
     = sorted o
         (list_to_set
            (PyStr.capitalize
               <$> filter (λ w, (w ∉ STOPWORDS) ∧ (4 ≤ String.length w)%nat
                                ∧ (PyStr.lower w ∉ PyStr.lower <$> used))
                     (Re.findall WORD_RE (remainder t)))))
  ∧ (all_chars (λ c, negb (PyStr.isupper c)) (strip_accents (PyStr.lower t)) →
     tokenize_remainder o t (phrase_scan (strip_accents (PyStr.lower t)))
     = sorted o
         (list_to_set
            (PyStr.capitalize
               <$> filter (λ w, (w ∉ STOPWORDS) ∧ (4 ≤ String.length w)%nat)
                     (Re.findall WORD_RE (remainder t))))).
Proof.
  assert (Hfound : Forall (λ w, word_shaped w ∧ PyStr.contains w (remainder t) = true)
                     (Re.findall WORD_RE (remainder t))).
  { apply Forall_forall. intros w Hw. by apply findall_go_words in Hw. }
  assert (Hall : ∀ used,
     tokenize_remainder o t used
     = sorted o
         (list_to_set
            (PyStr.capitalize
               <$> filter (λ w, (w ∉ STOPWORDS) ∧ (4 ≤ String.length w)%nat
                                ∧ (PyStr.lower w ∉ PyStr.lower <$> used))
                     (Re.findall WORD_RE (remainder t))))).
  { intros used. unfold tokenize_remainder, token_set. f_equal.
    rewrite (token_fold_found t used _ ∅ Hfound). by rewrite (right_id_L ∅ (∪)). }
  split; [exact Hall|]. intros Hlow. rewrite Hall. clear Hall. revert Hfound.
  generalize STOPWORDS. intros stop Hfound. f_equal. f_equal. f_equal.
  apply filter_ext_in. intros w Hw.
  rewrite Forall_forall in Hfound. destruct (Hfound w Hw) as [Hshape Hcont].
  pose proof (word_kept t w (strip_accents (PyStr.lower t)) Hlow Hshape Hcont).
  tauto.
Qed.

Lemma tokens_are_capitalized_words_witness :
  all_chars (λ c, negb (PyStr.isupper c))
    (strip_accents (PyStr.lower "A Study of Ontologies in Healthcare"))
  ∧ tokenize_remainder elements_order "A Study of Ontologies in Healthcare"
      (phrase_scan (strip_accents (PyStr.lower "A Study of Ontologies in Healthcare")))
    = sorted elements_order
        (list_to_set
           (PyStr.capitalize
              <$> filter (λ w, (w ∉ STOPWORDS) ∧ (4 ≤ String.length w)%nat)
                    (Re.findall WORD_RE (remainder "A Study of Ontologies in Healthcare")))).
Proof.
  assert (H : all_chars (λ c, negb (PyStr.isupper c))
                (strip_accents (PyStr.lower "A Study of Ontologies in Healthcare")))
    by (vm_compute; exact I).
  split; [exact H|].
  exact (proj2 (tokens_are_capitalized_words elements_order
                  "A Study of Ontologies in Healthcare") H).
Defined.

Lemma upper_of_lower (c : ascii) :
  PyStr.islower c = true → PyStr.isupper (PyStr.upper_char c) = true.
Proof. by destruct c as [[] [] [] [] [] [] [] []]. Qed.

Lemma word_char_lower (c : ascii) :
  is_word_char c = true → PyStr.isupper c = false →
  PyStr.islower c || bool_decide (c = "-"%char) = true.
Proof. unfold is_word_char, PyStr.isalpha. intros H Hup. by rewrite Hup in H. Qed.

Lemma all_chars_and (f g h : ascii → bool) (s : string) :
  (∀ c, f c = true → g c = true → h c = true) →
  all_chars f s → all_chars g s → all_chars h s.
Proof.
  intros Hh. induction s as [|c s IH]; [done|]. cbn [all_chars].
  intros [Hf Hfs]%andb_prop_elim [Hg Hgs]%andb_prop_elim.
  apply andb_prop_intro. split; [|by apply IH].
  apply Is_true_true_2, Hh; by apply Is_true_true_1.
Qed.

(** X14.  Every token keyword of a publication is one capitalized word: an
    upper-case letter followed by at least three lower-case letters or
    hyphens. *)
Theorem token_keyword_shape (o : set_order) (t k : string) :
  k ∈ tokenize_remainder o t (phrase_scan (strip_accents (PyStr.lower t))) →
  ∃ c w,
    k = String c w
    ∧ PyStr.isupper c = true
    ∧ all_chars (λ x, PyStr.islower x || bool_decide (x = "-"%char)) w
    ∧ (3 ≤ String.length w)%nat.
Proof.
  unfold tokenize_remainder, token_set. rewrite elem_of_sorted.
  rewrite (token_fold_words t)
    by (apply Forall_forall; intros w Hw; by apply findall_go_words in Hw).
  rewrite (right_id_L ∅ (∪)), elem_of_list_to_set, list_elem_of_fmap.
  intros (w & -> & [[_ Hlen] Hw]%list_elem_of_filter).
  apply findall_go_words in Hw as [Hshape Hcont].
  pose proof (all_chars_contains _ w (remainder t) Hcont (all_chars_remainder t)) as Hlow.
  destruct w as [|c w]; [done|]. cbn [word_shaped] in Hshape.
  apply andb_prop_elim in Hshape as [[Hc Hw]%andb_prop_elim _].
  cbn [all_chars] in Hlow. apply andb_prop_elim in Hlow as [Hcl Hwl].
  apply negb_prop_elim, Is_true_false_1 in Hcl. apply Is_true_true_1 in Hc.
  exists (PyStr.upper_char c), w. cbn [PyStr.capitalize].
  rewrite (lower_fixed w Hwl). split; [done|]. split.
  - apply upper_of_lower. unfold PyStr.isalpha in Hc. by rewrite Hcl in Hc.
  - split; [|cbn [String.length] in Hlen; lia].
    apply (all_chars_and is_word_char (λ c, negb (PyStr.isupper c))); [|done..].
    intros x Hx Hup. apply word_char_lower; [done|]. by apply negb_true_iff.
Qed.

Lemma token_keyword_shape_witness :
  ∃ c w, "Healthcare" = String c w ∧ PyStr.isupper c = true
    ∧ all_chars (λ x, PyStr.islower x || bool_decide (x = "-"%char)) w
    ∧ (3 ≤ String.length w)%nat.
Proof.
  apply (token_keyword_shape elements_order "A Study of Ontologies in Healthcare").
  vm_compute. apply list_elem_of_here.
Defined.

(** ** Title extractor: no field *)

Lemma title_field_absent (closes : ascii → ascii → bool) (entry : string) :
  contains_i "title" entry = false → title_field closes entry = None.
Proof.
  induction entry as [|c entry IH]; cbn [contains_i title_field];
    intros [Hhere Hrest]%orb_false_elim; apply bool_decide_eq_false_1 in Hhere;
    unfold title_field_at;
    (destruct (strip_word_i "title" _) as [s1|]; [destruct Hhere; by eexists|]);
    [done|by apply IH].
Qed.

(** X15.  An entry in which the word title occurs in no case has no title,
    and so gives no publication. *)
Theorem no_title_word_no_title (entry : string) :
  contains_i "title" entry = false → extract_title entry = None.
Proof.
  intros Hno. unfold extract_title.
  pose proof (search_title entry) as Hs.
  rewrite (title_field_absent closes_any entry Hno) in Hs.
  by destruct (Re.search TITLE_RE entry).
Qed.

Lemma no_title_word_no_title_witness :
  contains_i "title" "@misc{k1, author={A. B.}, year=2020}" = false
  ∧ extract_title "@misc{k1, author={A. B.}, year=2020}" = None.
Proof.
  assert (H : contains_i "title" "@misc{k1, author={A. B.}, year=2020}" = false)
    by (vm_compute; reflexivity).
  split; [exact H|]. exact (no_title_word_no_title _ H).
Defined.

(** ** Pipeline driver: the threshold *)

(** X16.  Under a threshold greater than 1, a publication keeps exactly the
    keywords of its list whose count in the frequency map reaches the
    threshold, in their order; the counts are those taken before any
    keyword was dropped. *)
Theorem threshold_keeps_frequent (o : set_order) (bib_path text : string) (T : Z) :
  1 < T →
  Forall2
    (λ kept full,
       pub_title kept = pub_title full
       ∧ keywords kept
         = filter (λ k, T ≤ freq_get (main o bib_path text 1).2 k) (keywords full)
       ∧ ∀ k, k ∈ keywords kept →
           T ≤ Z.of_nat (occurrences k (publications (main o bib_path text 1).1)))
    (publications (main o bib_path text T).1)
    (publications (main o bib_path text 1).1).
Proof.
  intros HT. unfold main, main_on_entries. cbn [fst snd publications].
  set (pubs := build_publication_keywords o _).
  rewrite (bool_decide_eq_true_2 _ HT), (bool_decide_eq_false_2 (1 < 1)) by lia.
  apply Forall2_fmap_l, Forall_Forall2_diag, Forall_forall. intros p _.
  split; [done|]. split; [done|]. intros k. cbn [filter_keywords keywords].
  rewrite list_elem_of_filter, freq_get_occurrences. tauto.
Qed.

Lemma threshold_keeps_frequent_witness :
  Forall2
    (λ kept full,
       pub_title kept = pub_title full
       ∧ keywords kept
         = filter (λ k, 2 ≤ freq_get
             (main elements_order "Marcos.bib" "@article{a1, title={Semantic Web}}" 1).2 k)
             (keywords full)
       ∧ ∀ k, k ∈ keywords kept →
           2 ≤ Z.of_nat (occurrences k (publications
             (main elements_order "Marcos.bib" "@article{a1, title={Semantic Web}}" 1).1)))
    (publications (main elements_order "Marcos.bib" "@article{a1, title={Semantic Web}}" 2).1)
    (publications (main elements_order "Marcos.bib" "@article{a1, title={Semantic Web}}" 1).1).
Proof.
  apply (threshold_keeps_frequent elements_order "Marcos.bib"
           "@article{a1, title={Semantic Web}}" 2).
  lia.
Defined.

(** ** Lines *)

Lemma splitlines_feed (rest : string) :
  PyStr.splitlines (String "010"%char rest) = EmptyString :: PyStr.splitlines rest.
Proof. by destruct rest. Qed.

Lemma splitlines_line_then (l rest : string) :
  all_chars (λ c, negb (PyStr.islinebreak c)) l →
  PyStr.splitlines (l +:+ NL +:+ rest) = l :: PyStr.splitlines rest.
Proof.
  induction l as [|c l IH]; [intros _; apply splitlines_feed|].
  cbn [all_chars]. intros [Hc Hl]%andb_prop_elim.
  apply negb_prop_elim, Is_true_false_1 in Hc.
  rewrite string_app_cons. cbn [PyStr.splitlines]. rewrite Hc, IH by done. done.
Qed.

Lemma splitlines_last (l : string) :
  all_chars (λ c, negb (PyStr.islinebreak c)) l → l ≠ EmptyString →
  PyStr.splitlines l = [l].
Proof.
  induction l as [|c l IH]; [done|]. cbn [all_chars].
  intros [Hc Hl]%andb_prop_elim _.
  apply negb_prop_elim, Is_true_false_1 in Hc.
  cbn [PyStr.splitlines]. rewrite Hc.
  destruct l as [|d l']; [done|]. by rewrite IH.
Qed.

Lemma splitlines_no_break (s : string) :
  Forall (λ l, all_chars (λ c, negb (PyStr.islinebreak c)) l) (PyStr.splitlines s)
  ∧ ∀ c, Forall (λ l, all_chars (λ c, negb (PyStr.islinebreak c)) l)
           (match s with
            | String d s' =>
                if bool_decide (c = "013"%char) && bool_decide (d = "010"%char)
                then PyStr.splitlines s' else PyStr.splitlines s
            | EmptyString => []
            end).
Proof.
  induction s as [|d s [IH1 IH2]]; [by split|].
  assert (H1 : Forall (λ l, all_chars (λ c, negb (PyStr.islinebreak c)) l)
            (PyStr.splitlines (String d s))).
  { cbn [PyStr.splitlines]. destruct (PyStr.islinebreak d) eqn:Hd.
    - constructor; [done|]. apply IH2.
    - destruct (PyStr.splitlines s) as [|l ls]; cbn [PyStr.cons_line].
      + constructor; [|done]. cbn [all_chars]. by rewrite Hd.
      + apply Forall_cons in IH1 as [Hl Hls]. constructor; [|done].
        cbn [all_chars]. by rewrite Hd. }
  split; [exact H1|]. intros c. by destruct (_ && _).
Qed.

(** X17.  Lines without line break characters, the last of them not empty,
    joined by line feeds, are split into those same lines: the segmenter
    reads a text written line by line as those lines. *)
Theorem splitlines_join (lines : list string) :
  Forall (λ l, all_chars (λ c, negb (PyStr.islinebreak c)) l) lines →
  last lines ≠ Some EmptyString →
  PyStr.splitlines (PyStr.join NL lines) = lines.
Proof.
  intros Hall Hlast.
  induction Hall as [|l ls Hl Hls IH]; [done|].
  destruct ls as [|l' ls'].
  - cbn [PyStr.join]. apply splitlines_last; [done|]. intros ->. by apply Hlast.
  - change (PyStr.join NL (l :: l' :: ls'))
      with (l +:+ NL +:+ PyStr.join NL (l' :: ls')).
    rewrite splitlines_line_then by done. f_equal. apply IH. exact Hlast.
Qed.

Lemma splitlines_join_witness :
  PyStr.splitlines (PyStr.join NL ["@a{k,"; ""; "}"]) = ["@a{k,"; ""; "}"].
Proof.
  apply (splitlines_join ["@a{k,"; ""; "}"]).
  - apply (bool_decide_unpack _). vm_compute. exact I.
  - simpl. discriminate.
Defined.

Lemma join_lines_feeds (ls : list string) :
  Forall (λ l, all_chars (λ c, negb (PyStr.islinebreak c)) l) ls →
  all_chars (λ c, negb (PyStr.islinebreak c) || bool_decide (c = "010"%char))
    (PyStr.join NL ls).
Proof.
  assert (Hweak : ∀ a, all_chars (λ c, negb (PyStr.islinebreak c)) a →
            all_chars (λ c, negb (PyStr.islinebreak c) || bool_decide (c = "010"%char)) a).
  { induction a as [|x a IH]; [done|]. cbn [all_chars].
    intros [Hx Ha]%andb_prop_elim. apply andb_prop_intro. split; [|by apply IH].
    by destruct (negb (PyStr.islinebreak x)). }
  induction 1 as [|l ls Hl Hls IH]; [done|].
  destruct ls as [|l' ls']; [by apply Hweak|].
  change (PyStr.join NL (l :: l' :: ls'))
    with (l +:+ String "010"%char (PyStr.join NL (l' :: ls'))).
  apply all_chars_app; [by apply Hweak|]. cbn [all_chars].
  apply andb_prop_intro. split; [done|]. exact IH.
Qed.

(** X18.  The only line break characters inside an entry are line feeds:
    whatever line ends the text uses (carriage returns, carriage return and
    line feed, form feeds), the lines of an entry are joined again by single
    line feeds, which the title extractor turns into spaces. *)
Theorem entries_line_feeds_only (bib_text entry : string) :
  entry ∈ iter_bib_entries bib_text →
  all_chars (λ c, negb (PyStr.islinebreak c) || bool_decide (c = "010"%char)) entry.
Proof.
  unfold iter_bib_entries, iter_bib_entries_trace, seg_trace. intros He.
  assert (Hrun : entry_of_lines (PyStr.splitlines bib_text) entry).
  { apply (seg_run_entries (PyStr.splitlines bib_text) [] seg_init).
    - split; [done|]. split; [done|]. by exists [].
    - destruct (seg_run seg_init (PyStr.splitlines bib_text)) as [out st].
      simpl. by rewrite <- fmap_app. }
  destruct Hrun as (before & first & more & after & Hlines & _ & _ & ->).
  apply join_lines_feeds.
  pose proof (proj1 (splitlines_no_break bib_text)) as Hall.
  rewrite Hlines in Hall.
  apply Forall_app in Hall as [_ Hall]. by apply Forall_app in Hall as [Hall _].
Qed.

Lemma entries_line_feeds_only_witness :
  all_chars (λ c, negb (PyStr.islinebreak c) || bool_decide (c = "010"%char))
    ("@a{k," +:+ NL +:+ "}").
Proof.
  apply (entries_line_feeds_only
           ("@a{k," +:+ String "013"%char NL +:+ "}" +:+ String "013"%char NL)).
  vm_compute. apply list_elem_of_here.
Defined.

(** ** Entry segmenter: the depth *)

Lemma count_app (c : ascii) (a b : string) :
  PyStr.count c (a +:+ b) = PyStr.count c a + PyStr.count c b.
Proof.
  induction a as [|x a IH]; [done|]. rewrite string_app_cons. cbn [PyStr.count].
  rewrite IH. lia.
Qed.

Lemma net_braces_app (a b : string) :
  net_braces (a +:+ b) = net_braces a + net_braces b.
Proof. unfold net_braces. rewrite !count_app. lia. Qed.

Lemma join_snoc (cur : list string) (line : string) :
  cur ≠ [] →
  PyStr.join NL (cur ++ [line]) = PyStr.join NL cur +:+ NL +:+ line.
Proof.
  induction cur as [|p cur IH]; [done|]. intros _.
  destruct cur as [|q cur]; [done|].
  change (PyStr.join NL ((p :: q :: cur) ++ [line]))
    with (p +:+ NL +:+ PyStr.join NL ((q :: cur) ++ [line])).
  rewrite IH by done.
  change (PyStr.join NL (p :: q :: cur)) with (p +:+ NL +:+ PyStr.join NL (q :: cur)).
  by rewrite !string_app_assoc.
Qed.

Lemma net_braces_snoc (cur : list string) (line : string) :
  net_braces (PyStr.join NL (cur ++ [line]))
  = net_braces (PyStr.join NL cur) + net_braces line.
Proof.
  destruct cur as [|p cur]; [done|].
  rewrite join_snoc, !net_braces_app by done.
  change (net_braces NL) with 0. lia.
Qed.

Lemma net_yielded_app (out1 out2 : list (flush * string)) :
  net_yielded (out1 ++ out2) = net_yielded out1 + net_yielded out2.
Proof.
  unfold net_yielded. induction out1 as [|e out1 IH]; [done|].
  cbn [app foldr]. rewrite IH. lia.
Qed.

Lemma seg_step_balance (st : seg) (line : string) :
  inside st = nonempty (current st) →
  depth (seg_step st line).2
  = depth st - net_braces (PyStr.join NL (current st))
    + net_yielded (seg_step st line).1
    + net_braces (PyStr.join NL (current (seg_step st line).2)).
Proof.
  intros Hinv. destruct st as [cur d ins]. cbn [inside current depth] in *. subst ins.
  unfold seg_step. cbn [current depth inside].
  destruct (starts_record line).
  - destruct cur as [|c cur]; cbn [nonempty inside current depth app];
      destruct (bool_decide _ && _);
      cbn [fst snd current depth net_yielded foldr app PyStr.join];
      change (net_braces EmptyString) with 0; lia.
  - destruct cur as [|c cur]; cbn [nonempty inside current depth];
      [cbn [fst snd current depth net_yielded foldr]; lia|].
    pose proof (net_braces_snoc (c :: cur) line) as Hsnoc.
    destruct (bool_decide _ && _);
      cbn [fst snd current depth net_yielded foldr app] in *;
      change (net_braces (PyStr.join NL [])) with 0; lia.
Qed.

Lemma seg_run_balance (st : seg) (lines : list string) :
  inside st = nonempty (current st) →
  depth (seg_run st lines).2
  = depth st - net_braces (PyStr.join NL (current st))
    + net_yielded (seg_run st lines).1
    + net_braces (PyStr.join NL (current (seg_run st lines).2)).
Proof.
  revert st. induction lines as [|l ls IH]; intros st Hinv.
  - cbn [seg_run fst snd net_yielded foldr]. lia.
  - pose proof (seg_step_balance st l Hinv) as Hstep.
    pose proof (seg_step_inside st l Hinv) as Hinv1.
    cbn [seg_run]. destruct (seg_step st l) as [out st1]. cbn [fst snd] in *.
    specialize (IH st1 Hinv1). destruct (seg_run st1 ls) as [outs st2].
    cbn [fst snd] in *. rewrite net_yielded_app. lia.
Qed.

(** X19.  The depth of the segmenter is the brace balance of the entries:
    after any lines, it equals the braces, opening minus closing, of all
    the entries yielded so far and of the entry held.  The braces of lines
    outside entries are never counted, and an unbalanced entry shifts the
    depth for all the entries after it. *)
Theorem depth_is_entry_balance (lines : list string) :
  depth (seg_run seg_init lines).2
  = net_yielded (seg_run seg_init lines).1
    + net_braces (PyStr.join NL (current (seg_run seg_init lines).2))
  ∧ depth (seg_run seg_init lines).2 = net_yielded (seg_trace lines).
Proof.
  pose proof (seg_run_balance seg_init lines eq_refl) as Hb.
  cbn [seg_init current depth PyStr.join] in Hb.
  change (net_braces EmptyString) with 0 in Hb.
  split; [lia|]. unfold seg_trace.
  destruct (seg_run seg_init lines) as [out st]. cbn [fst snd] in *.
  rewrite net_yielded_app, Hb. unfold seg_finish.
  destruct (current st) as [|c cur]; cbn [nonempty net_yielded foldr snd];
    change (net_braces (PyStr.join NL [])) with 0; lia.
Qed.
